(** * Resilient remote lookups: [check_url] and [lookup_postcode]

    A shallow embedding of the retry loops of [url_checker.py] and
    [zipcode_finder.py], and of the row-filling pass of the latter, with the
    properties the specification states about them.

    Effects are explicit.  A lookup runs in a small state-and-exception monad
    over a [world]: the timeline of observable events (transport calls,
    sleeps, printed and logged records) together with the number of transport
    calls and random draws made so far.  The remote side and the random
    generator are oracles indexed by those two counters, so every behaviour
    of the transport, including raising, is one choice of oracle. *)

From Stdlib Require Import ZArith QArith Ascii String Sorted Lia Lqa.
From stdpp Require Import gmap strings list pretty.

Local Open Scope Z_scope.

(** ** Python values and primitives *)

Module Py.

(** Cell and argument values: [None], [bool], [int] and [str]. *)
Inductive py_value : Type :=
| VNone
| VBool (b : bool)
| VInt (z : Z)
| VStr (s : string).

#[global] Instance py_value_eq_dec : EqDecision py_value.
Proof. solve_decision. Defined.

(** Python truthiness, as used by [not x], [x or y] and [if x]. *)
Definition truthy (v : py_value) : bool :=
  match v with
  | VNone => false
  | VBool b => b
  | VInt z => negb (z =? 0)
  | VStr s => negb (String.eqb s "")
  end.

(** [x or y] on values. *)
Definition py_or (x y : py_value) : py_value := if truthy x then x else y.

(** [str.lower]: the ASCII letters [A-Z] are mapped to [a-z].  No other code
    point lower-cases to one of the letters of an ASCII needle such as
    [captcha], so membership tests of such a needle are not affected by the
    restriction to ASCII. *)
Definition lower_ascii (c : ascii) : ascii :=
  let n := nat_of_ascii c in
  if ((65 <=? n) && (n <=? 90))%nat then ascii_of_nat (n + 32) else c.

Fixpoint lower (s : string) : string :=
  match s with
  | EmptyString => EmptyString
  | String c s' => String (lower_ascii c) (lower s')
  end.

(** [sub in s] on strings. *)
Fixpoint str_in (sub s : string) : bool :=
  String.prefix sub s
  || match s with
     | EmptyString => false
     | String _ s' => str_in sub s'
     end.

(** White space as [str.strip] sees it, for code points below 256. *)
Definition is_space (c : ascii) : bool :=
  let n := nat_of_ascii c in
  (((9 <=? n) && (n <=? 13)) || ((28 <=? n) && (n <=? 32))
   || (n =? 133) || (n =? 160))%nat.

Fixpoint lstrip (s : string) : string :=
  match s with
  | EmptyString => EmptyString
  | String c s' => if is_space c then lstrip s' else s
  end.

Definition strip (s : string) : string :=
  String.rev (lstrip (String.rev (lstrip s))).

(** [str(v)]. *)
Definition str (v : py_value) : string :=
  match v with
  | VNone => "None"
  | VBool true => "True"
  | VBool false => "False"
  | VInt z => pretty z
  | VStr s => s
  end.

(** [range(lo, hi)] as the list of its elements. *)
Fixpoint range_from (lo : Z) (n : nat) : list Z :=
  match n with
  | O => []
  | S n' => lo :: range_from (lo + 1) n'
  end.

Definition range (lo hi : Z) : list Z := range_from lo (Z.to_nat (hi - lo)).

End Py.

Export Py.

(** ** Exceptions *)

(** The subclasses of [requests.exceptions.RequestException] that matter. *)
Inductive request_error : Type :=
| ReqTimeout
| ReqConnectionError
| ReqInvalidURL
| ReqOther.

(** Exceptions a call can raise.  [GeocoderServiceError] stands for the
    geopy errors other than the two that [lookup_postcode] names, and
    [OtherException] for any other subclass of [Exception].
    [KeyboardInterrupt] and [SystemExit] derive from [BaseException] only. *)
Inductive exn : Type :=
| GeocoderTimedOut
| GeocoderUnavailable
| GeocoderServiceError
| RequestException (k : request_error)
| OtherException (name : string)
| KeyboardInterrupt
| SystemExit (code : Z).

(** [except Exception]: the instances of [Exception]. *)
Definition is_Exception (e : exn) : bool :=
  match e with
  | KeyboardInterrupt | SystemExit _ => false
  | _ => true
  end.

(** ** Observable events *)

Inductive level : Type := INFO | WARNING | ERROR.

(** The records the two scripts print or log, by their format string. *)
Inductive message : Type :=
| MsgEncountered (code : Z) (url : string) (wait : Q)
| MsgErrorChecking (url : string) (e : exn)
| MsgAttemptFailed (attempt : Z) (address : py_value) (e : exn) (wait : Z)
| MsgAllRetriesFailed (address : py_value)
| MsgRowFilled (row : Z) (postcode : string)
| MsgRowNoZip (row : Z) (address : py_value).

Inductive event : Type :=
| EvGet (url : string)
| EvGeocode (address : py_value)
| EvSleep (d : Q)
| EvPrint (m : message)
| EvLog (l : level) (m : message).

Record world : Type := World {
  calls : nat;          (* transport calls made so far *)
  draws : nat;          (* random numbers drawn so far *)
  trace : list event    (* what happened, oldest first *)
}.

Definition w0 : world := World 0 0 [].

Definition is_call (e : event) : bool :=
  match e with EvGet _ | EvGeocode _ => true | _ => false end.

(** The durations slept, oldest first. *)
Fixpoint sleeps_of (t : list event) : list Q :=
  match t with
  | [] => []
  | EvSleep d :: t' => d :: sleeps_of t'
  | _ :: t' => sleeps_of t'
  end.

(** The number of transport calls in a timeline. *)
Fixpoint calls_in (t : list event) : nat :=
  match t with
  | [] => O
  | e :: t' => ((if is_call e then 1 else 0) + calls_in t')%nat
  end.

(** The records logged at level [ERROR]. *)
Fixpoint errors_of (t : list event) : list message :=
  match t with
  | [] => []
  | EvLog ERROR m :: t' => m :: errors_of t'
  | _ :: t' => errors_of t'
  end.

(** ** The effect monad *)

Inductive result (A : Type) : Type :=
| Returned (a : A)
| Raised (e : exn).
Arguments Returned {A} a.
Arguments Raised {A} e.

Definition M (S A : Type) : Type := S -> result A * S.

Definition ret {S A} (a : A) : M S A := fun s => (Returned a, s).

Definition bind {S A B} (m : M S A) (k : A -> M S B) : M S B :=
  fun s =>
    match m s with
    | (Returned a, s') => k a s'
    | (Raised e, s') => (Raised e, s')
    end.

Definition raise {S A} (e : exn) : M S A := fun s => (Raised e, s).

(** [try: m except <classes> as e: h e]; [catches] tells which exceptions
    the clause matches.  What [m] did before raising is kept. *)
Definition try_except {S A} (m : M S A) (catches : exn -> bool)
    (h : exn -> M S A) : M S A :=
  fun s =>
    match m s with
    | (Returned a, s') => (Returned a, s')
    | (Raised e, s') => if catches e then h e s' else (Raised e, s')
    end.

Notation "x <- c ;; k" := (bind c (fun x => k))
  (at level 85, c at next level, right associativity).
Notation "c ;;; k" := (bind c (fun _ => k))
  (at level 85, right associativity).

(** A [for] loop whose body may [return]: [Some v] leaves the function with
    [v], [None] falls through to the next element. *)
Fixpoint for_return {S I R} (body : I -> M S (option R)) (l : list I)
    : M S (option R) :=
  match l with
  | [] => ret None
  | i :: l' =>
      r <- body i ;;
      match r with
      | Some v => ret (Some v)
      | None => for_return body l'
      end
  end.

Definition emit (e : event) : M world unit :=
  fun w => (Returned tt, World (calls w) (draws w) (trace w ++ [e])).

(** [time.sleep], [print] and [logging.<level>]. *)
Definition sleep (d : Q) : M world unit := emit (EvSleep d).
Definition print (m : message) : M world unit := emit (EvPrint m).
Definition log (l : level) (m : message) : M world unit := emit (EvLog l m).

(** [random.uniform(a, b)], that is [a + (b - a) * random()]; [random] gives
    the successive values of [random()]. *)
Definition random_uniform (random : nat -> Q) (a b : Q) : M world Q :=
  fun w =>
    (Returned (a + (b - a) * random (draws w))%Q,
     World (calls w) (S (draws w)) (trace w)).

(** ** [url_checker.py]: [check_url] *)

Module UrlChecker.

(** What [check_url] reads of a response: [r.status_code] and [r.text]. *)
Record response : Type := Response {
  status_code : Z;
  text : option string
}.

(** One [session.get]: a response, or an exception. *)
Inductive get_result : Type :=
| GetReturns (r : response)
| GetRaises (e : exn).

Definition RESPONSE_CODES : gmap Z string :=
  list_to_map
    [ (100, "Continue"); (101, "Switching Protocols");
      (200, "OK"); (201, "Created"); (202, "Accepted"); (204, "No Content");
      (301, "Moved Permanently"); (302, "Found"); (304, "Not Modified");
      (400, "Bad Request"); (401, "Unauthorized"); (403, "Forbidden");
      (404, "Not Found");
      (500, "Internal Server Error"); (502, "Bad Gateway");
      (503, "Service Unavailable"); (504, "Gateway Timeout") ].

(** [code in (429, 503) or 'captcha' in (r.text or '').lower()] *)
Definition soft_failure (r : response) : bool :=
  (status_code r =? 429) || (status_code r =? 503)
  || str_in "captcha" (lower (default ""%string (text r))).

Section Session.

(** [session n url] is what the [n+1]-th [session.get] does. *)
Variable session : nat -> string -> get_result.
Variable random : nat -> Q.

Definition session_get (url : string) : M world response :=
  fun w =>
    let w' := World (S (calls w)) (draws w) (trace w ++ [EvGet url]) in
    match session (calls w) url with
    | GetReturns r => (Returned r, w')
    | GetRaises e => (Raised e, w')
    end.

(** The body of the loop of [check_url]: [Some v] is [return v], [None]
    goes on with the next attempt. *)
Definition check_url_attempt (url : string)
    : M world (option (option Z * string)) :=
  try_except
    (r <- session_get url ;;
     let code := status_code r in
     if soft_failure r then
       wait <- random_uniform random 5 10 ;;
       print (MsgEncountered code url wait) ;;;
       sleep wait ;;;
       ret None
     else
       ret (Some (Some code, default "Unknown"%string (RESPONSE_CODES !! code))))
    is_Exception
    (fun e =>
       print (MsgErrorChecking url e) ;;;
       d <- random_uniform random 2 4 ;;
       sleep d ;;;
       ret None).

Definition check_url (url : string) (max_retries : Z)
    : M world (option Z * string) :=
  r <- for_return (fun _ => check_url_attempt url) (range 1 (max_retries + 1)) ;;
  match r with
  | Some v => ret v
  | None => ret (None, "Failed after retries"%string)
  end.

End Session.

End UrlChecker.

(** ** [zipcode_finder.py]: [lookup_postcode] and the row-filling pass *)

Module ZipcodeFinder.

(** What [lookup_postcode] reads of a geopy [Location]: the dictionary
    [loc.raw['address']], when [loc.raw] has that key. *)
Record location : Type := Location {
  raw_address : option (gmap string string)
}.

(** One [geolocator.geocode]: a location, [None], or an exception. *)
Inductive geocode_result : Type :=
| GeoReturns (loc : option location)
| GeoRaises (e : exn).

(** [except (GeocoderTimedOut, GeocoderUnavailable, RequestException)] *)
Definition caught (e : exn) : bool :=
  match e with
  | GeocoderTimedOut | GeocoderUnavailable | RequestException _ => true
  | GeocoderServiceError | OtherException _ | KeyboardInterrupt | SystemExit _ => false
  end.

(** [min(20, 2 ** attempt)] *)
Definition backoff (attempt : Z) : Z := Z.min 20 (2 ^ attempt).

(** A spreadsheet cell: its value and its fill. *)
Inductive pattern_fill : Type := no_fill | yellow_fill.

Record cell : Type := Cell {
  value : py_value;
  fill : pattern_fill
}.

#[global] Instance pattern_fill_eq_dec : EqDecision pattern_fill.
Proof. solve_decision. Defined.

#[global] Instance cell_eq_dec : EqDecision cell.
Proof. solve_decision. Defined.

(** A cell nobody wrote to. *)
Definition empty_cell : cell := Cell VNone no_fill.

Record worksheet : Type := Worksheet {
  max_row : Z;
  cells : gmap (Z * Z) cell
}.

(** [ws.cell(row=row, column=column)] *)
Definition ws_cell (ws : worksheet) (row column : Z) : cell :=
  default empty_cell (cells ws !! (row, column)).

(** [not zip_cell.value or str(zip_cell.value).strip() == ""] *)
Definition zip_is_blank (v : py_value) : bool :=
  negb (truthy v) || String.eqb (strip (str v)) "".

Section Geolocator.

(** [geolocator n address] is what the [n+1]-th [geolocator.geocode]
    does. *)
Variable geolocator : nat -> py_value -> geocode_result.
Variable random : nat -> Q.

Definition geolocator_geocode (address : py_value)
    : M world (option location) :=
  fun w =>
    let w' := World (S (calls w)) (draws w) (trace w ++ [EvGeocode address]) in
    match geolocator (calls w) address with
    | GeoReturns loc => (Returned loc, w')
    | GeoRaises e => (Raised e, w')
    end.

(** The body of the loop of [lookup_postcode]: [Some v] is [return v],
    [None] goes on with the next attempt. *)
Definition lookup_postcode_attempt (address : py_value) (attempt : Z)
    : M world (option string) :=
  try_except
    (loc <- geolocator_geocode address ;;
     match loc with
     | Some l =>
         match default ∅ (raw_address l) !! "postcode"%string with
         | Some postcode => ret (Some postcode)
         | None => ret (Some ""%string)
         end
     | None => ret (Some ""%string)
     end)
    caught
    (fun e =>
       let wait := backoff attempt in
       log WARNING (MsgAttemptFailed attempt address e wait) ;;;
       sleep (inject_Z wait) ;;;
       ret None).

Definition lookup_postcode (address : py_value) (retries : Z)
    : M world string :=
  r <- for_return (lookup_postcode_attempt address) (range 1 (retries + 1)) ;;
  match r with
  | Some v => ret v
  | None =>
      log ERROR (MsgAllRetriesFailed address) ;;;
      ret ""%string
  end.

(** *** The pass over the rows

    The worksheet is mutated in place, so it is part of the state, next
    to the world. *)

Definition lift {A} (m : M world A) : M (worksheet * world) A :=
  fun s =>
    match m (snd s) with
    | (r, w') => (r, (fst s, w'))
    end.

Definition get_cell (row column : Z) : M (worksheet * world) cell :=
  fun s => (Returned (ws_cell (fst s) row column), s).

Definition set_cell (row column : Z) (c : cell) : M (worksheet * world) unit :=
  fun s =>
    (Returned tt,
     (Worksheet (max_row (fst s)) (<[(row, column) := c]> (cells (fst s))),
      snd s)).

Variables col_zip col_address : Z.

(** The body of the loop over the rows. *)
Definition fill_row (row : Z) : M (worksheet * world) unit :=
  zip_cell <- get_cell row col_zip ;;
  if zip_is_blank (value zip_cell) then
    address_cell <- get_cell row col_address ;;
    let address := py_or (value address_cell) (VStr "") in
    postcode <- lift (lookup_postcode address 3) ;;
    (if truthy (VStr postcode) then
       set_cell row col_zip (Cell (VStr postcode) (fill zip_cell)) ;;;
       set_cell row col_zip (Cell (VStr postcode) yellow_fill) ;;;
       lift (log INFO (MsgRowFilled row postcode))
     else
       lift (log INFO (MsgRowNoZip row address))) ;;;
    d <- lift (random_uniform random 1 5) ;;
    lift (sleep d)
  else
    ret tt.

Fixpoint for_each {S I} (body : I -> M S unit) (l : list I) : M S unit :=
  match l with
  | [] => ret tt
  | i :: l' => body i ;;; for_each body l'
  end.

(** [for row in range(2, ws.max_row + 1): ...] *)
Definition fill_blank_zips : M (worksheet * world) unit :=
  fun s => for_each fill_row (range 2 (max_row (fst s) + 1)) s.

End Geolocator.

End ZipcodeFinder.

(** ** [url_checker.py]: the URL pattern and the extractors *)

Module UrlExtract.

(** The character class of [URL_REGEX]: any character but white space, a
    closing parenthesis, a double quote, a single quote and a greater-than
    sign. *)
Definition url_char (c : ascii) : bool :=
  let n := nat_of_ascii c in
  negb (is_space c || (n =? 41) || (n =? 34) || (n =? 39) || (n =? 62))%nat.

(** The longest prefix made of such characters. *)
Fixpoint url_chars (s : string) : string :=
  match s with
  | EmptyString => EmptyString
  | String c s' => if url_char c then String c (url_chars s') else EmptyString
  end.

(** [s[n:]] *)
Fixpoint string_drop (n : nat) (s : string) : string :=
  match n, s with
  | O, _ => s
  | S n', String _ s' => string_drop n' s'
  | S _, EmptyString => EmptyString
  end.

(** [URL_REGEX.match(s)], the match of [URL_REGEX] at the start of [s]:
    [http], an optional [s], [://], then as many characters of the class as
    there are, at least one. *)
Definition match_at (s : string) : option string :=
  let scheme :=
    if String.prefix "https://" s then Some "https://"%string
    else if String.prefix "http://" s then Some "http://"%string
    else None in
  match scheme with
  | Some sch =>
      match url_chars (string_drop (String.length sch) s) with
      | EmptyString => None
      | body => Some (sch +:+ body)
      end
  | None => None
  end.

(** [URL_REGEX.findall(text)]: the matches from left to right; the search
    resumes where a match ends, so [skip] characters are passed over after
    one, and one character after a position with no match. *)
Fixpoint findall_from (skip : nat) (s : string) : list string :=
  match s with
  | EmptyString => []
  | String c s' =>
      match skip with
      | S k => findall_from k s'
      | O =>
          match match_at s with
          | Some u => u :: findall_from (String.length u - 1) s'
          | None => findall_from 0 s'
          end
      end
  end.

Definition findall (text : string) : list string := findall_from 0 text.

(** [sep.join(l)] *)
Fixpoint join (sep : string) (l : list string) : string :=
  match l with
  | [] => EmptyString
  | [x] => x
  | x :: l' => x +:+ sep +:+ join sep l'
  end.

Definition newline : string := String "010"%char EmptyString.

(** What the extractors print. *)
Inductive console_line : Type :=
| FailedToReadTXT (path : string) (e : exn).

Section Documents.

(** What reading a document gives, or the exception it raises:
    [path.read_text(encoding='utf-8', errors='ignore')], the
    [page.extract_text()] of the pages of [PdfReader(str(path))], and the
    [p.text] of the paragraphs of [Document(str(path))]. *)
Variable read_text : string -> result string.
Variable pdf_pages : string -> result (list (option string)).
Variable docx_paragraphs : string -> result (list string).

Definition from_file {A} (r : result A) : M (list console_line) A :=
  fun s => (r, s).


Definition extract_urls_from_pdf (path : string) : M (list console_line) (gset string) :=
  pages <- from_file (pdf_pages path) ;;
  let text := fold_left (fun t page => t +:+ default ""%string page) pages ""%string in
  ret (list_to_set (findall text)).

Definition extract_urls_from_docx (path : string) : M (list console_line) (gset string) :=
  paragraphs <- from_file (docx_paragraphs path) ;;
  let full := join newline paragraphs in
  ret (list_to_set (findall full)).


End Documents.

End UrlExtract.
Import UrlExtract.

(** ** [url_checker.py]: [process_file] *)

Module UrlProcessing.
Import UrlChecker.

(** The functions [EXTRACTORS] maps the extensions to. *)
Inductive extractor : Type :=
| from_pdf | from_docx | from_pptx | from_xlsx | from_txt | from_csv | from_odf.

Definition EXTRACTORS : gmap string extractor :=
  list_to_map
    [ (".pdf"%string, from_pdf); (".docx"%string, from_docx);
      (".pptx"%string, from_pptx); (".xlsx"%string, from_xlsx);
      (".txt"%string, from_txt); (".csv"%string, from_csv);
      (".odt"%string, from_odf); (".ods"%string, from_odf);
      (".odp"%string, from_odf) ].

(** A row given to [writer.writerow] by [process_file]. *)
Record csv_row : Type := CsvRow {
  URL : string;
  response_code : py_value;
  comment : py_value
}.

(** The first component of what [check_url] returns, as a value. *)
Definition code_value (code : option Z) : py_value :=
  match code with
  | Some z => VInt z
  | None => VNone
  end.

Definition lift_world {S A} (m : M world A) : M (S * world) A :=
  fun s =>
    match m (snd s) with
    | (r, w') => (r, (fst s, w'))
    end.

Section Processing.

Variable session : nat -> string -> get_result.
Variable random : nat -> Q.

(** [path.suffix], and what calling an extractor on a path gives: the URLs
    of its set in the order the [for] loop goes through them, or the
    exception it raises. *)
Variable suffix : string -> string.
Variable run_extractor : extractor -> string -> result (list string).

Definition human_sleep (a b : Q) : M world unit :=
  d <- random_uniform random a b ;;
  sleep d.

Definition writerow (row : csv_row) : M (list csv_row * world) unit :=
  fun s => (Returned tt, (fst s ++ [row], snd s)).

Definition process_file (path : string) : M (list csv_row * world) unit :=
  match EXTRACTORS !! lower (suffix path) with
  | None => ret tt
  | Some extractor =>
      urls <- (fun s => (run_extractor extractor path, s)) ;;
      ZipcodeFinder.for_each
        (fun url =>
           lift_world (human_sleep 1 3) ;;;
           r <- lift_world (check_url session random url 3) ;;
           writerow {| URL := url;
                       response_code := py_or (code_value (fst r)) (VStr "");
                       comment := py_or (VStr (snd r)) (VStr "") |})
        urls
  end.

End Processing.

End UrlProcessing.
Import UrlProcessing.

(** ** [url_checker.py]: [validate_source] *)

Module ValidateSource.

(** What [validate_source] prints, and how it ends: [return p] or
    [sys.exit(code)]. *)
Inductive notice : Type :=
| InvalidPath (remaining : Z)
| Exiting
| ReachedInvalidAttempts (max_tries : Z).

Inductive ending : Type :=
| Return (p : string)
| Exit (code : Z).

Section Console.

(** [input n] is the [n+1]-th line the user types; [is_dir] and [is_file]
    are [Path(src).is_dir()] and [Path(src).is_file()], and the path
    returned stands for [Path(src)]. *)
Variable input : nat -> string.
Variable is_dir is_file : string -> bool.

(** The [while] loop, with the lines read and the notices printed so far;
    [None] when [fuel] iterations were not enough. *)
Fixpoint validate_loop (fuel : nat) (check_all_files : bool) (tries max_tries : Z)
    (read : nat) (printed : list notice) : option (ending * nat * list notice) :=
  match fuel with
  | O => None
  | S fuel' =>
      if tries <? max_tries then
        let src := strip (input read) in
        let read := S read in
        if check_all_files && is_dir src then Some (Return src, read, printed)
        else if negb check_all_files && is_file src then Some (Return src, read, printed)
        else
          let tries := tries + 1 in
          let printed := printed ++ [InvalidPath (max_tries - tries)] in
          if tries <? max_tries then
            let again := lower (strip (input read)) in
            let read := S read in
            if String.eqb again "n" || String.eqb again "no" then
              Some (Exit 1, read, printed ++ [Exiting])
            else validate_loop fuel' check_all_files tries max_tries read printed
          else validate_loop fuel' check_all_files tries max_tries read printed
      else Some (Exit 1, read, printed ++ [ReachedInvalidAttempts max_tries])
  end.

Definition validate_source (check_all_files : bool)
    : option (ending * nat * list notice) :=
  validate_loop 4 check_all_files 0 3 0 [].

End Console.

End ValidateSource.
Import ValidateSource.

(** ** [zipcode_finder.py]: the header row and the trimming pass *)

Module ZipcodeScript.
Import ZipcodeFinder.

(** [str(cell.value).strip().lower()] *)
Definition header_of (v : py_value) : string := lower (strip (str v)).

(** The loop that fills [headers] from the cells of the first row, [idx]
    being the column of the first of [cells]. *)
Fixpoint map_headers_from (idx : Z) (cells : list py_value) (headers : gmap string Z)
    : gmap string Z :=
  match cells with
  | [] => headers
  | v :: cells' =>
      map_headers_from (idx + 1) cells'
        (match v with
         | VNone => headers
         | _ => <[header_of v := idx]> headers
         end)
  end.

Definition map_headers (row1 : list py_value) : gmap string Z :=
  map_headers_from 1 row1 ∅.

(** [col_zip] and [col_address], or [None] where the script logs an error
    and exits with code 1. *)
Definition required_columns (headers : gmap string Z) : option (Z * Z) :=
  let col_zip := headers !! "zip"%string in
  let col_address := headers !! "full_address"%string in
  if negb (truthy (default VNone (VInt <$> col_zip)))
     || negb (truthy (default VNone (VInt <$> col_address)))
  then None
  else Some (default 0 col_zip, default 0 col_address).

(** [c.value = c.value.strip()] for a cell whose value is a [str]. *)
Definition trim_cell (c : cell) : cell :=
  match value c with
  | VStr s => Cell (VStr (strip s)) (fill c)
  | _ => c
  end.

(** The loop over [ws.iter_rows(min_row=2)]. *)
Definition trim_cells (ws : worksheet) : worksheet :=
  Worksheet (max_row ws)
    (map_imap
       (fun k c => Some (if (2 <=? fst k) && (fst k <=? max_row ws) then trim_cell c else c))
       (cells ws)).

(** The two passes of the script over the sheet, one after the other: the
    rows are filled, then the cells trimmed. *)
Definition fill_and_trim (geolocator : nat -> py_value -> geocode_result)
    (random : nat -> Q) (col_zip col_address : Z) : M (worksheet * world) unit :=
  fill_blank_zips geolocator random col_zip col_address ;;;
  (fun s => (Returned tt, (trim_cells (fst s), snd s))).

End ZipcodeScript.
Import ZipcodeScript.

(** * Vocabulary of the properties *)

(** What a computation adds to the timeline when run from [w]. *)
Definition emitted_by {A} (m : M world A) (w : world) : list event :=
  drop (length (trace w)) (trace (snd (m w))).

(** ** Runs of [check_url] *)

Module UrlCheckerTerms.
Import UrlChecker.

(** An attempt the loop of [check_url] goes past: the call raised an
    exception that [except Exception] catches, or the response is a soft
    failure. *)
Definition retryable (g : get_result) : bool :=
  match g with
  | GetRaises e => is_Exception e
  | GetReturns r => soft_failure r
  end.

(** What [check_url] returns for a response it accepts. *)
Definition success (r : response) : option Z * string :=
  (Some (status_code r), default "Unknown"%string (RESPONSE_CODES !! status_code r)).

(** The events of one attempt that is retried; [u] is the value drawn. *)
Definition retry_events (url : string) (g : get_result) (u : Q) : list event :=
  match g with
  | GetReturns r =>
      let wait := (5 + (10 - 5) * u)%Q in
      [EvGet url; EvPrint (MsgEncountered (status_code r) url wait); EvSleep wait]
  | GetRaises e =>
      [EvGet url; EvPrint (MsgErrorChecking url e); EvSleep (2 + (4 - 2) * u)%Q]
  end.

Section Terms.

Variable session : nat -> string -> get_result.
Variable random : nat -> Q.
Variable url : string.

(** The events of [k] retried attempts in a row, the first of which is
    call number [c] and draws number [d]. *)
Fixpoint retries_trace (k c d : nat) : list event :=
  match k with
  | O => []
  | S k' => retry_events url (session c url) (random d) ++ retries_trace k' (S c) (S d)
  end.

Definition after_retries (k : nat) (w : world) : world :=
  World (calls w + k) (draws w + k) (trace w ++ retries_trace k (calls w) (draws w)).

(** The world after [k] retried attempts and one accepted response. *)
Definition after_accept (k : nat) (w : world) : world :=
  World (S (calls w + k)) (draws w + k)
        (trace w ++ retries_trace k (calls w) (draws w) ++ [EvGet url]).

End Terms.

End UrlCheckerTerms.

(** ** Runs of [lookup_postcode] and of the pass over the rows *)

Module ZipcodeFinderTerms.
Import ZipcodeFinder.

(** An attempt the loop of [lookup_postcode] goes past: the call raised one
    of the exceptions of the [except] clause. *)
Definition transient (g : geocode_result) : bool :=
  match g with
  | GeoRaises e => caught e
  | GeoReturns _ => false
  end.

(** The postcode field of a geocoder answer, when there is one. *)
Definition postcode_field (loc : option location) : option string :=
  match loc with
  | Some l => default ∅ (raw_address l) !! "postcode"%string
  | None => None
  end.

(** What [lookup_postcode] returns for a call that completes. *)
Definition answer (loc : option location) : string :=
  default ""%string (postcode_field loc).

Section Terms.

Variable geolocator : nat -> py_value -> geocode_result.
Variable address : py_value.

(** The events of one attempt. *)
Definition attempt_events (attempt : Z) (g : geocode_result) : list event :=
  match g with
  | GeoRaises e =>
      if caught e then
        [EvGeocode address;
         EvLog WARNING (MsgAttemptFailed attempt address e (backoff attempt));
         EvSleep (inject_Z (backoff attempt))]
      else [EvGeocode address]
  | GeoReturns _ => [EvGeocode address]
  end.

(** The events of the attempts numbered [a], [a+1], ..., [a+k-1], the first
    of which is call number [c]. *)
Fixpoint failures_trace (k c : nat) (a : Z) : list event :=
  match k with
  | O => []
  | S k' => attempt_events a (geolocator c address) ++ failures_trace k' (S c) (a + 1)
  end.

Definition after_failures (k : nat) (a : Z) (w : world) : world :=
  World (calls w + k) (draws w) (trace w ++ failures_trace k (calls w) a).

(** The world after [k] failed attempts and one more call. *)
Definition after_call (k : nat) (w : world) : world :=
  World (S (calls w + k)) (draws w)
        (trace w ++ failures_trace k (calls w) 1 ++ [EvGeocode address]).

End Terms.

Section Rows.

Variable col_zip : Z.

(** The zip cell of a row is blank in a worksheet. *)
Definition blank_row (ws : worksheet) (row : Z) : bool :=
  zip_is_blank (value (ws_cell ws row col_zip)).

(** The rows of a list whose zip cell is blank. *)
Definition blank_rows (ws : worksheet) (l : list Z) : list Z :=
  filter (fun r => blank_row ws r = true) l.

End Rows.

End ZipcodeFinderTerms.

Import UrlChecker ZipcodeFinder UrlCheckerTerms ZipcodeFinderTerms.

(** ** The classification of attempts in the words of the specification *)

(** The classification in the words of the specification: a transport-level
    error (timeout, connection refused, DNS failure), a status 429 or 503,
    or a body containing [captcha]. *)
Definition spec_transport_error (e : exn) : bool :=
  match e with
  | GeocoderTimedOut | GeocoderUnavailable => true
  | RequestException ReqTimeout | RequestException ReqConnectionError => true
  | _ => false
  end.

Definition spec_retryable (g : get_result) : bool :=
  match g with
  | GetRaises e => spec_transport_error e
  | GetReturns r =>
      (status_code r =? 429) || (status_code r =? 503)
      || str_in "captcha" (default ""%string (text r))
  end.

(** ** Sample transports and a sample sheet *)

(** A geocoder that times out twice and then answers. *)
Definition flaky_geocoder (n : nat) (_ : py_value) : geocode_result :=
  match n with
  | O | 1%nat => GeoRaises GeocoderTimedOut
  | _ => GeoReturns (Some (Location (Some {[ "postcode"%string := "02134"%string ]})))
  end.

(** A location whose address has a city and no postcode. *)
Definition city_only : location :=
  Location (Some {[ "city"%string := "Boston"%string ]}).

(** A session that answers 429, then raises, then answers 200. *)
Definition flaky_session (n : nat) (_ : string) : get_result :=
  match n with
  | O => GetReturns (Response 429 (Some "slow down"%string))
  | 1%nat => GetRaises (RequestException ReqTimeout)
  | _ => GetReturns (Response 200 (Some "<html>hello</html>"%string))
  end.

(** A sheet with the zip in column 2 and the address in column 1: row 2 has
    no zip, row 3 has one, row 4 has white space only. *)
Definition sample_sheet : worksheet :=
  Worksheet 4
    (list_to_map
       [ ((1, 1), Cell (VStr "full_address") no_fill); ((1, 2), Cell (VStr "zip") no_fill);
         ((2, 1), Cell (VStr "123 Main St") no_fill);
         ((3, 1), Cell (VStr "456 Elm St") no_fill); ((3, 2), Cell (VInt 90210) no_fill);
         ((4, 1), Cell (VStr "789 Oak Ave") no_fill); ((4, 2), Cell (VStr " ") no_fill) ]).


(** ** Terms of the further properties *)

(** Every character of a string passes a test. *)
Fixpoint string_forall (p : ascii -> bool) (s : string) : bool :=
  match s with
  | EmptyString => true
  | String c s' => p c && string_forall p s'
  end.

(** The row written for [url] when its lookup starts with call number [c]
    of the session and makes [k] calls: either the three calls had to be
    retried and the row says that the lookup failed, or the first call that
    was not retried, one of the three, got a response, and the row shows the
    status of that response (an empty code for status [0]) with its
    comment. *)
Definition row_of_lookup (session : nat -> string -> get_result) (url : string)
    (c k : nat) (row : csv_row) : Prop :=
  URL row = url
  /\ ((k = 3%nat
       /\ (forall i, (i < 3)%nat -> retryable (session (c + i)%nat url) = true)
       /\ response_code row = VStr "" /\ comment row = VStr "Failed after retries")
      \/ exists j r,
           (j < 3)%nat /\ k = S j
           /\ (forall i, (i < j)%nat -> retryable (session (c + i)%nat url) = true)
           /\ session (c + j)%nat url = GetReturns r
           /\ soft_failure r = false
           /\ response_code row
              = (if status_code r =? 0 then VStr "" else VInt (status_code r))
           /\ comment row
              = VStr (default "Unknown"%string (RESPONSE_CODES !! status_code r))).

(** The rows written for a list of URLs looked up one after the other, the
    first lookup starting with call number [c] and the last one ending
    before call number [c']. *)
Fixpoint rows_of_lookups (session : nat -> string -> get_result) (urls : list string)
    (c : nat) (rows : list csv_row) (c' : nat) : Prop :=
  match urls, rows with
  | [], [] => c' = c
  | url :: urls', row :: rows' =>
      exists k, row_of_lookup session url c k row
                /\ rows_of_lookups session urls' (c + k) rows' c'
  | _, _ => False
  end.

(** A path is valid for the kind of source asked for: a directory when all
    the files of a folder are to be checked, a file otherwise. *)
Definition valid_source (is_dir is_file : string -> bool) (check_all_files : bool)
    (src : string) : bool :=
  if check_all_files then is_dir src else is_file src.

(** An answer to [Try again?] that makes [validate_source] exit: [n] or
    [no], in any letter case, with white space around. *)
Definition says_no (answer : string) : bool :=
  String.eqb (lower (strip answer)) "n" || String.eqb (lower (strip answer)) "no".

(** A cell of the first row is a header named [k]: it is not empty and its
    text, stripped and lower-cased, is [k]. *)
Definition is_header (k : string) (v : py_value) : bool :=
  match v with
  | VNone => false
  | _ => String.eqb (header_of v) k
  end.

(** The position of the last header named [k] in a row. *)
Fixpoint last_header (k : string) (cells : list py_value) : option nat :=
  match cells with
  | [] => None
  | v :: cells' =>
      match last_header k cells' with
      | Some j => Some (S j)
      | None => if is_header k v then Some O else None
      end
  end.

(** A string does not start with white space; a string neither starts nor
    ends with white space. *)
Definition starts_clean (t : string) : bool :=
  match t with
  | EmptyString => true
  | String c _ => negb (is_space c)
  end.

Definition stripped (t : string) : bool :=
  starts_clean t && starts_clean (String.rev t).

(** The time slept in a timeline, in seconds. *)
Definition time_slept (t : list event) : Q := fold_right Qplus 0%Q (sleeps_of t).

(** * Properties *)

(** ** Timelines *)

Lemma emitted_by_eq {A} (m : M world A) w r c d t :
  m w = (r, World c d (trace w ++ t)) -> emitted_by m w = t.
Proof.
  intros E. unfold emitted_by. rewrite E. simpl.
  by rewrite drop_app_length.
Qed.

Lemma sleeps_of_app t1 t2 : sleeps_of (t1 ++ t2) = sleeps_of t1 ++ sleeps_of t2.
Proof.
  induction t1 as [|e t1 IH]; [done|].
  destruct e; simpl; by rewrite ?IH.
Qed.

Lemma calls_in_app t1 t2 : calls_in (t1 ++ t2) = (calls_in t1 + calls_in t2)%nat.
Proof.
  induction t1 as [|e t1 IH]; [done|].
  simpl. rewrite IH. lia.
Qed.

Lemma errors_of_app t1 t2 : errors_of (t1 ++ t2) = errors_of t1 ++ errors_of t2.
Proof.
  induction t1 as [|e t1 IH]; [done|].
  destruct e as [| | | |[] ?]; simpl; by rewrite ?IH.
Qed.

(** [random.uniform(a, b)] lies between [a] and [b]. *)
Lemma uniform_range (a b u : Q) :
  (a < b -> 0 <= u <= 1 -> a <= a + (b - a) * u <= b)%Q.
Proof.
  intros Hab [H0 H1].
  assert (0 <= (b - a) * u)%Q.
  { apply Qmult_le_0_compat; [|done]. lra. }
  assert ((b - a) * u <= (b - a) * 1)%Q.
  { apply Qmult_le_l; [lra|done]. }
  split; lra.
Qed.

Lemma range_from_app lo n m :
  range_from lo (n + m) = range_from lo n ++ range_from (lo + Z.of_nat n) m.
Proof.
  revert lo. induction n as [|n IH]; intros lo; simpl.
  - by rewrite Z.add_0_r.
  - rewrite IH. do 3 f_equal. lia.
Qed.

Lemma range_from_length lo n : length (range_from lo n) = n.
Proof. revert lo. induction n as [|n IH]; intros lo; simpl; by rewrite ?IH. Qed.

Lemma range_1_length n : length (range 1 (n + 1)) = Z.to_nat n.
Proof. unfold range. rewrite range_from_length. f_equal. lia. Qed.

Lemma range_from_lower lo n : Forall (fun i => lo <= i) (range_from lo n).
Proof.
  revert lo. induction n as [|n IH]; intros lo; simpl; constructor; [lia|].
  eapply Forall_impl; [apply IH|]. simpl. lia.
Qed.

Lemma range_from_lookup lo n i x :
  range_from lo n !! i = Some x -> x = lo + Z.of_nat i.
Proof.
  revert lo i. induction n as [|n IH]; intros lo [|i]; simpl; try done.
  - intros [= <-]. lia.
  - intros H. apply IH in H. lia.
Qed.

Lemma elem_of_range lo hi r : r ∈ range lo hi -> lo <= r < hi.
Proof.
  unfold range. intros H. apply list_elem_of_lookup in H as [i H].
  pose proof (lookup_lt_Some _ _ _ H) as Hi. rewrite range_from_length in Hi.
  apply range_from_lookup in H. lia.
Qed.

(** ** [check_url] *)

Lemma soft_failure_iff r :
  soft_failure r = true
  <-> status_code r = 429 \/ status_code r = 503
      \/ str_in "captcha" (lower (default ""%string (text r))) = true.
Proof.
  unfold soft_failure. rewrite !orb_true_iff, !Z.eqb_eq. tauto.
Qed.

Module UrlCheckerFacts.

Section Facts.

Variable session : nat -> string -> get_result.
Variable random : nat -> Q.
Variable url : string.

Local Abbreviation retries_trace := (UrlCheckerTerms.retries_trace session random url).
Local Abbreviation after_retries := (UrlCheckerTerms.after_retries session random url).
Local Abbreviation after_accept := (UrlCheckerTerms.after_accept session random url).
Local Abbreviation loop := (for_return (fun _ : Z => check_url_attempt session random url)).

Lemma attempt_retried w :
  retryable (session (calls w) url) = true ->
  check_url_attempt session random url w = (Returned None, after_retries 1 w).
Proof.
  intros R. unfold check_url_attempt, try_except, bind, session_get, UrlCheckerTerms.after_retries.
  cbn [UrlCheckerTerms.retries_trace]. rewrite app_nil_r, !Nat.add_1_r.
  destruct (session (calls w) url) as [r|e]; cbn [retryable] in R; rewrite R.
  - unfold random_uniform, print, sleep, emit, ret.
    cbn [calls draws trace retry_events]. by rewrite <- !app_assoc.
  - unfold random_uniform, print, sleep, emit, ret.
    cbn [calls draws trace retry_events]. by rewrite <- !app_assoc.
Qed.

Lemma attempt_accepted w r :
  session (calls w) url = GetReturns r -> soft_failure r = false ->
  check_url_attempt session random url w
  = (Returned (Some (success r)),
     World (S (calls w)) (draws w) (trace w ++ [EvGet url])).
Proof.
  intros E F. unfold check_url_attempt, try_except, bind, session_get.
  by rewrite E, F.
Qed.

(** An exception outside [Exception] leaves the attempt. *)
Lemma attempt_interrupted w e :
  session (calls w) url = GetRaises e -> is_Exception e = false ->
  check_url_attempt session random url w
  = (Raised e, World (S (calls w)) (draws w) (trace w ++ [EvGet url])).
Proof.
  intros E F. unfold check_url_attempt, try_except, bind, session_get.
  by rewrite E, F.
Qed.

Lemma after_retries_S k w :
  after_retries k (after_retries 1 w) = after_retries (S k) w.
Proof.
  unfold UrlCheckerTerms.after_retries. simpl. rewrite app_nil_r, <- app_assoc, !Nat.add_1_r.
  f_equal; lia.
Qed.

Lemma after_retries_0 w : after_retries 0 w = w.
Proof.
  unfold UrlCheckerTerms.after_retries. simpl. rewrite app_nil_r, !Nat.add_0_r. by destruct w.
Qed.

(** The loop goes past a prefix of retried attempts. *)
Lemma loop_retried (l1 l2 : list Z) w :
  (forall i, (i < length l1)%nat -> retryable (session (calls w + i) url) = true) ->
  loop (l1 ++ l2) w = loop l2 (after_retries (length l1) w).
Proof.
  revert w. induction l1 as [|a l1 IH]; intros w H.
  - by rewrite after_retries_0.
  - simpl. unfold bind at 1. rewrite attempt_retried.
    2:{ specialize (H O). rewrite Nat.add_0_r in H. apply H. simpl. lia. }
    rewrite IH, after_retries_S; [done|].
    intros i Hi. simpl. rewrite Nat.add_1_r.
    replace (S (calls w) + i)%nat with (calls w + S i)%nat by lia.
    apply H. simpl. lia.
Qed.

Lemma calls_in_retries k c d : calls_in (retries_trace k c d) = k.
Proof.
  revert c d. induction k as [|k IH]; intros c d; [done|].
  simpl. rewrite calls_in_app, IH. by destruct (session c url).
Qed.

Lemma sleeps_in_retries k c d : length (sleeps_of (retries_trace k c d)) = k.
Proof.
  revert c d. induction k as [|k IH]; intros c d; [done|].
  simpl. rewrite sleeps_of_app, length_app, IH. by destruct (session c url).
Qed.

Lemma loop_exhausted (l : list Z) w :
  (forall i, (i < length l)%nat -> retryable (session (calls w + i) url) = true) ->
  loop l w = (Returned None, after_retries (length l) w).
Proof.
  intros H. rewrite <- (app_nil_r l) at 1. by rewrite loop_retried.
Qed.

Lemma loop_accepts (l : list Z) k r w :
  (k < length l)%nat ->
  (forall i, (i < k)%nat -> retryable (session (calls w + i) url) = true) ->
  session (calls w + k) url = GetReturns r -> soft_failure r = false ->
  loop l w = (Returned (Some (success r)), after_accept k w).
Proof.
  intros Hk H E F.
  rewrite <- (take_drop k l).
  assert (Hlen : length (take k l) = k) by (rewrite length_take; lia).
  destruct (drop k l) as [|a l2] eqn:D.
  { apply (f_equal length) in D. rewrite length_drop in D. simpl in D. lia. }
  rewrite loop_retried by (by rewrite Hlen).
  rewrite Hlen. simpl. unfold bind.
  rewrite (attempt_accepted _ r) by done.
  unfold UrlCheckerTerms.after_accept, ret. simpl. by rewrite <- app_assoc.
Qed.

Lemma loop_interrupted (l : list Z) k e w :
  (k < length l)%nat ->
  (forall i, (i < k)%nat -> retryable (session (calls w + i) url) = true) ->
  session (calls w + k) url = GetRaises e -> is_Exception e = false ->
  loop l w = (Raised e, after_accept k w).
Proof.
  intros Hk H E F.
  rewrite <- (take_drop k l).
  assert (Hlen : length (take k l) = k) by (rewrite length_take; lia).
  destruct (drop k l) as [|a l2] eqn:D.
  { apply (f_equal length) in D. rewrite length_drop in D. simpl in D. lia. }
  rewrite loop_retried by (by rewrite Hlen).
  rewrite Hlen. simpl. unfold bind.
  rewrite (attempt_interrupted _ e) by done.
  unfold UrlCheckerTerms.after_accept. simpl. by rewrite <- app_assoc.
Qed.

(** Among the calls numbered [c], ..., [c+n-1], either all have to be
    retried, or there is a first one that is not: its response is accepted,
    or it raises an exception outside [Exception]. *)
Lemma first_non_retryable n c :
  (forall i, (i < n)%nat -> retryable (session (c + i) url) = true)
  \/ exists k,
       (k < n)%nat
       /\ (forall i, (i < k)%nat -> retryable (session (c + i) url) = true)
       /\ ((exists r, session (c + k) url = GetReturns r /\ soft_failure r = false)
           \/ (exists e, session (c + k) url = GetRaises e /\ is_Exception e = false)).
Proof.
  induction n as [|n [IH|(k & Hk & H & E)]].
  - left. lia.
  - destruct (retryable (session (c + n) url)) eqn:R.
    + left. intros i Hi. destruct (decide (i = n)) as [->|]; [done|]. apply IH. lia.
    + right. exists n. split; [lia|]. split; [intros; apply IH; lia|].
      destruct (session (c + n) url) as [r|e]; eauto.
  - right. exists k. split; [lia|done].
Qed.

Lemma check_url_exhausted max_retries w :
  (forall i, (i < Z.to_nat max_retries)%nat ->
             retryable (session (calls w + i) url) = true) ->
  check_url session random url max_retries w
  = (Returned (None, "Failed after retries"%string),
     after_retries (Z.to_nat max_retries) w).
Proof.
  intros H. unfold check_url, bind.
  rewrite loop_exhausted; rewrite range_1_length; done.
Qed.

Lemma check_url_accepts max_retries k r w :
  (k < Z.to_nat max_retries)%nat ->
  (forall i, (i < k)%nat -> retryable (session (calls w + i) url) = true) ->
  session (calls w + k) url = GetReturns r -> soft_failure r = false ->
  check_url session random url max_retries w
  = (Returned (success r), after_accept k w).
Proof.
  intros Hk H E F. unfold check_url, bind.
  rewrite (loop_accepts _ k r); by rewrite ?range_1_length.
Qed.

Lemma check_url_interrupted max_retries k e w :
  (k < Z.to_nat max_retries)%nat ->
  (forall i, (i < k)%nat -> retryable (session (calls w + i) url) = true) ->
  session (calls w + k) url = GetRaises e -> is_Exception e = false ->
  check_url session random url max_retries w = (Raised e, after_accept k w).
Proof.
  intros Hk H E F. unfold check_url, bind.
  rewrite (loop_interrupted _ k e); by rewrite ?range_1_length.
Qed.

(** The three ways a run of [check_url] can go. *)
Lemma check_url_run max_retries w :
  ((forall i, (i < Z.to_nat max_retries)%nat ->
              retryable (session (calls w + i) url) = true)
   /\ check_url session random url max_retries w
      = (Returned (None, "Failed after retries"%string),
         after_retries (Z.to_nat max_retries) w))
  \/ (exists k r,
        (k < Z.to_nat max_retries)%nat
        /\ (forall i, (i < k)%nat -> retryable (session (calls w + i) url) = true)
        /\ session (calls w + k) url = GetReturns r /\ soft_failure r = false
        /\ check_url session random url max_retries w
           = (Returned (success r), after_accept k w))
  \/ (exists k e,
        (k < Z.to_nat max_retries)%nat
        /\ (forall i, (i < k)%nat -> retryable (session (calls w + i) url) = true)
        /\ session (calls w + k) url = GetRaises e /\ is_Exception e = false
        /\ check_url session random url max_retries w = (Raised e, after_accept k w)).
Proof.
  destruct (first_non_retryable (Z.to_nat max_retries) (calls w))
    as [H|(k & Hk & H & [(r & E & F)|(e & E & F)])].
  - left. split; [done|]. by apply check_url_exhausted.
  - right. left. exists k, r. repeat (split; [done|]). by apply check_url_accepts.
  - right. right. exists k, e. repeat (split; [done|]). by apply check_url_interrupted.
Qed.

Lemma check_url_emits_retries max_retries w :
  (forall i, (i < Z.to_nat max_retries)%nat ->
             retryable (session (calls w + i) url) = true) ->
  emitted_by (check_url session random url max_retries) w
  = retries_trace (Z.to_nat max_retries) (calls w) (draws w).
Proof.
  intros H. eapply emitted_by_eq. rewrite check_url_exhausted by done. reflexivity.
Qed.

Lemma check_url_emits_accept max_retries k r w :
  (k < Z.to_nat max_retries)%nat ->
  (forall i, (i < k)%nat -> retryable (session (calls w + i) url) = true) ->
  session (calls w + k) url = GetReturns r -> soft_failure r = false ->
  emitted_by (check_url session random url max_retries) w
  = retries_trace k (calls w) (draws w) ++ [EvGet url].
Proof.
  intros Hk H E F. eapply emitted_by_eq.
  rewrite (check_url_accepts _ k r) by done. reflexivity.
Qed.

Lemma check_url_emits_interrupt max_retries k e w :
  (k < Z.to_nat max_retries)%nat ->
  (forall i, (i < k)%nat -> retryable (session (calls w + i) url) = true) ->
  session (calls w + k) url = GetRaises e -> is_Exception e = false ->
  emitted_by (check_url session random url max_retries) w
  = retries_trace k (calls w) (draws w) ++ [EvGet url].
Proof.
  intros Hk H E F. eapply emitted_by_eq.
  rewrite (check_url_interrupted _ k e) by done. reflexivity.
Qed.

(** The last of [k >= 1] retried attempts ends with its sleep. *)
Lemma retries_trace_last k c d :
  exists t m q, retries_trace (S k) c d = t ++ [EvGet url; EvPrint m; EvSleep q].
Proof.
  revert c d. induction k as [|k IH]; intros c d.
  - exists []. simpl. rewrite app_nil_r. destruct (session c url); simpl; eauto.
  - destruct (IH (S c) (S d)) as (t & m & q & E).
    exists (retry_events url (session c url) (random d) ++ t), m, q.
    change (retries_trace (S (S k)) c d)
      with (retry_events url (session c url) (random d) ++ retries_trace (S k) (S c) (S d)).
    by rewrite E, app_assoc.
Qed.

(** Durations drawn from a generator with values in the unit interval lie
    within the ranges asked for. *)
Lemma sleeps_in_retries_bounds k c d :
  (forall n, 0 <= random n <= 1)%Q ->
  Forall (fun q => 2 <= q <= 10)%Q (sleeps_of (retries_trace k c d)).
Proof.
  intros Hr. revert c d. induction k as [|k IH]; intros c d; [constructor|].
  simpl. rewrite sleeps_of_app. apply Forall_app. split; [|apply IH].
  destruct (session c url); simpl; (constructor; [|constructor]).
  - pose proof (uniform_range 5 10 (random d) eq_refl (Hr d)). lra.
  - pose proof (uniform_range 2 4 (random d) eq_refl (Hr d)). lra.
Qed.

End Facts.

End UrlCheckerFacts.

(** ** [lookup_postcode] *)

Lemma backoff_cap a : backoff a <= 20.
Proof. unfold backoff. lia. Qed.

Lemma backoff_mono a b : 0 <= a <= b -> backoff a <= backoff b.
Proof.
  intros H. unfold backoff.
  assert (2 ^ a <= 2 ^ b) by (apply Z.pow_le_mono_r; lia). lia.
Qed.

Lemma backoffs_sorted lo n :
  0 <= lo ->
  StronglySorted Qle (map (fun i => inject_Z (backoff i)) (range_from lo n)).
Proof.
  revert lo. induction n as [|n IH]; intros lo Hlo; simpl; constructor.
  - apply IH. lia.
  - apply Forall_map. eapply Forall_impl; [apply (range_from_lower (lo + 1) n)|].
    simpl. intros i Hi. rewrite <- Zle_Qle. apply backoff_mono. lia.
Qed.

Lemma backoffs_capped lo n :
  Forall (fun d => d <= 20)%Q
         (map (fun i => inject_Z (backoff i)) (range_from lo n)).
Proof.
  apply Forall_map, Forall_forall. intros i _. simpl.
  change 20%Q with (inject_Z 20). rewrite <- Zle_Qle. apply backoff_cap.
Qed.

Module ZipcodeFinderFacts.

Section Facts.

Variable geolocator : nat -> py_value -> geocode_result.
Variable address : py_value.

Local Abbreviation attempt_events := (ZipcodeFinderTerms.attempt_events address).
Local Abbreviation failures_trace := (ZipcodeFinderTerms.failures_trace geolocator address).
Local Abbreviation after_failures := (ZipcodeFinderTerms.after_failures geolocator address).
Local Abbreviation after_call := (ZipcodeFinderTerms.after_call geolocator address).
Local Abbreviation loop := (for_return (lookup_postcode_attempt geolocator address)).

Lemma attempt_failed a w :
  transient (geolocator (calls w) address) = true ->
  lookup_postcode_attempt geolocator address a w = (Returned None, after_failures 1 a w).
Proof.
  intros T. unfold lookup_postcode_attempt, try_except, bind, geolocator_geocode,
    ZipcodeFinderTerms.after_failures.
  simpl. rewrite app_nil_r, Nat.add_1_r.
  destruct (geolocator (calls w) address) as [loc|e]; [done|].
  simpl in T. rewrite T. unfold ret. cbn. by rewrite T, <- !app_assoc.
Qed.

Lemma attempt_returns a w loc :
  geolocator (calls w) address = GeoReturns loc ->
  lookup_postcode_attempt geolocator address a w
  = (Returned (Some (answer loc)),
     World (S (calls w)) (draws w) (trace w ++ [EvGeocode address])).
Proof.
  intros E. unfold lookup_postcode_attempt, try_except, bind, geolocator_geocode.
  rewrite E. unfold answer, postcode_field.
  destruct loc as [l|]; [|done].
  by destruct (default ∅ (raw_address l) !! "postcode"%string).
Qed.

Lemma attempt_propagates a w e :
  geolocator (calls w) address = GeoRaises e -> caught e = false ->
  lookup_postcode_attempt geolocator address a w
  = (Raised e, World (S (calls w)) (draws w) (trace w ++ [EvGeocode address])).
Proof.
  intros E C. unfold lookup_postcode_attempt, try_except, bind, geolocator_geocode.
  by rewrite E, C.
Qed.

Lemma after_failures_S k a w :
  after_failures k (a + 1) (after_failures 1 a w) = after_failures (S k) a w.
Proof.
  unfold ZipcodeFinderTerms.after_failures. simpl. rewrite app_nil_r, <- app_assoc, !Nat.add_1_r.
  f_equal; lia.
Qed.

Lemma after_failures_0 a w : after_failures 0 a w = w.
Proof.
  unfold ZipcodeFinderTerms.after_failures. simpl. rewrite app_nil_r, !Nat.add_0_r. by destruct w.
Qed.

(** The loop goes past a prefix of failed attempts. *)
Lemma loop_failed k a (l : list Z) w :
  (forall i, (i < k)%nat -> transient (geolocator (calls w + i) address) = true) ->
  loop (range_from a k ++ l) w = loop l (after_failures k a w).
Proof.
  revert a w. induction k as [|k IH]; intros a w H.
  - by rewrite after_failures_0.
  - simpl. unfold bind at 1. rewrite attempt_failed.
    2:{ specialize (H O). rewrite Nat.add_0_r in H. apply H. lia. }
    rewrite IH, after_failures_S; [done|].
    intros i Hi. simpl. rewrite Nat.add_1_r.
    replace (S (calls w) + i)%nat with (calls w + S i)%nat by lia.
    apply H. lia.
Qed.

Lemma range_split (retries : Z) (k : nat) :
  (k < Z.to_nat retries)%nat ->
  range 1 (retries + 1)
  = range_from 1 k ++ (1 + Z.of_nat k) :: range_from (1 + Z.of_nat k + 1) (Z.to_nat retries - S k).
Proof.
  intros Hk. unfold range.
  replace (Z.to_nat (retries + 1 - 1)) with (k + S (Z.to_nat retries - S k))%nat by lia.
  by rewrite range_from_app.
Qed.

Lemma lookup_exhausted retries w :
  (forall i, (i < Z.to_nat retries)%nat ->
             transient (geolocator (calls w + i) address) = true) ->
  lookup_postcode geolocator address retries w
  = (Returned ""%string,
     World (calls w + Z.to_nat retries) (draws w)
           (trace w ++ failures_trace (Z.to_nat retries) (calls w) 1
                   ++ [EvLog ERROR (MsgAllRetriesFailed address)])).
Proof.
  intros H. unfold lookup_postcode, bind, range.
  replace (Z.to_nat (retries + 1 - 1)) with (Z.to_nat retries) by lia.
  rewrite <- (app_nil_r (range_from _ _)), loop_failed by done.
  cbn. by rewrite <- app_assoc.
Qed.

Lemma lookup_returns retries k loc w :
  (k < Z.to_nat retries)%nat ->
  (forall i, (i < k)%nat -> transient (geolocator (calls w + i) address) = true) ->
  geolocator (calls w + k) address = GeoReturns loc ->
  lookup_postcode geolocator address retries w = (Returned (answer loc), after_call k w).
Proof.
  intros Hk H E. unfold lookup_postcode, bind.
  rewrite (range_split _ k), loop_failed by done.
  simpl. unfold bind. rewrite (attempt_returns _ _ loc) by done.
  unfold ZipcodeFinderTerms.after_call, ret. simpl. by rewrite <- app_assoc.
Qed.

Lemma lookup_propagates retries k e w :
  (k < Z.to_nat retries)%nat ->
  (forall i, (i < k)%nat -> transient (geolocator (calls w + i) address) = true) ->
  geolocator (calls w + k) address = GeoRaises e -> caught e = false ->
  lookup_postcode geolocator address retries w = (Raised e, after_call k w).
Proof.
  intros Hk H E C. unfold lookup_postcode, bind.
  rewrite (range_split _ k), loop_failed by done.
  simpl. unfold bind. rewrite (attempt_propagates _ _ e) by done.
  unfold ZipcodeFinderTerms.after_call. simpl. by rewrite <- app_assoc.
Qed.

(** Among the first [n] calls, either all fail with a caught exception, or
    there is a first one that does not. *)
Lemma first_non_transient n w :
  (forall i, (i < n)%nat -> transient (geolocator (calls w + i) address) = true)
  \/ exists k,
       (k < n)%nat
       /\ (forall i, (i < k)%nat -> transient (geolocator (calls w + i) address) = true)
       /\ transient (geolocator (calls w + k) address) = false.
Proof.
  induction n as [|n [IH|(k & Hk & H & E)]].
  - left. lia.
  - destruct (transient (geolocator (calls w + n) address)) eqn:T.
    + left. intros i Hi. destruct (decide (i = n)) as [->|]; [done|]. apply IH. lia.
    + right. exists n. split; [lia|]. split; [|done]. intros. apply IH. lia.
  - right. exists k. split; [lia|done].
Qed.

Lemma calls_in_failures k c a : calls_in (failures_trace k c a) = k.
Proof.
  revert c a. induction k as [|k IH]; intros c a; [done|].
  simpl. rewrite calls_in_app, IH.
  destruct (geolocator c address) as [|e]; [done|]. simpl. by destruct (caught e).
Qed.

Lemma errors_of_failures k c a : errors_of (failures_trace k c a) = [].
Proof.
  revert c a. induction k as [|k IH]; intros c a; [done|].
  simpl. rewrite errors_of_app, IH.
  destruct (geolocator c address) as [|e]; [done|]. simpl. by destruct (caught e).
Qed.

(** The sleeps of [k] failed attempts are the backoffs of their numbers. *)
Lemma sleeps_of_failures k c a :
  (forall i, (i < k)%nat -> transient (geolocator (c + i) address) = true) ->
  sleeps_of (failures_trace k c a) = map (fun n => inject_Z (backoff n)) (range_from a k).
Proof.
  revert c a. induction k as [|k IH]; intros c a H; [done|].
  simpl. rewrite sleeps_of_app, IH.
  - specialize (H O). rewrite Nat.add_0_r in H.
    destruct (geolocator c address) as [|e]; simpl in *; [discriminate H; lia|].
    rewrite H by lia. done.
  - intros i Hi. replace (S c + i)%nat with (c + S i)%nat by lia. apply H. lia.
Qed.

(** The last of [k >= 1] failed attempts ends with its sleep. *)
Lemma failures_trace_last k c a :
  transient (geolocator (c + k) address) = true ->
  exists t m,
    failures_trace (S k) c a
    = t ++ [EvGeocode address; EvLog WARNING m;
            EvSleep (inject_Z (backoff (a + Z.of_nat k)))].
Proof.
  revert c a. induction k as [|k IH]; intros c a T.
  - rewrite Nat.add_0_r in T. exists []. simpl. rewrite app_nil_r, Z.add_0_r.
    destruct (geolocator c address) as [|e]; [done|]. simpl in *. rewrite T. eauto.
  - destruct (IH (S c) (a + 1)) as (t & m & E).
    { by replace (S c + k)%nat with (c + S k)%nat by lia. }
    exists (attempt_events a (geolocator c address) ++ t), m.
    change (failures_trace (S (S k)) c a)
      with (attempt_events a (geolocator c address) ++ failures_trace (S k) (S c) (a + 1)).
    replace (a + Z.of_nat (S k)) with (a + 1 + Z.of_nat k) by lia.
    by rewrite E, app_assoc.
Qed.

Lemma lookup_emits_failures retries w :
  (forall i, (i < Z.to_nat retries)%nat ->
             transient (geolocator (calls w + i) address) = true) ->
  emitted_by (lookup_postcode geolocator address retries) w
  = failures_trace (Z.to_nat retries) (calls w) 1
    ++ [EvLog ERROR (MsgAllRetriesFailed address)].
Proof.
  intros H. eapply emitted_by_eq. rewrite lookup_exhausted by done. reflexivity.
Qed.

Lemma lookup_emits_return retries k loc w :
  (k < Z.to_nat retries)%nat ->
  (forall i, (i < k)%nat -> transient (geolocator (calls w + i) address) = true) ->
  geolocator (calls w + k) address = GeoReturns loc ->
  emitted_by (lookup_postcode geolocator address retries) w
  = failures_trace k (calls w) 1 ++ [EvGeocode address].
Proof.
  intros Hk H E. eapply emitted_by_eq.
  rewrite (lookup_returns _ k loc) by done. reflexivity.
Qed.

Lemma lookup_emits_propagate retries k e w :
  (k < Z.to_nat retries)%nat ->
  (forall i, (i < k)%nat -> transient (geolocator (calls w + i) address) = true) ->
  geolocator (calls w + k) address = GeoRaises e -> caught e = false ->
  emitted_by (lookup_postcode geolocator address retries) w
  = failures_trace k (calls w) 1 ++ [EvGeocode address].
Proof.
  intros Hk H E C. eapply emitted_by_eq.
  rewrite (lookup_propagates _ k e) by done. reflexivity.
Qed.

(** Whatever the geocoder does, a lookup makes some [k] failed attempts and
    then at most one more call, and sleeps only for the failed attempts. *)
Lemma lookup_shape retries w :
  exists k t,
    (k <= Z.to_nat retries)%nat
    /\ emitted_by (lookup_postcode geolocator address retries) w = t
    /\ (calls_in t <= Z.to_nat retries)%nat
    /\ sleeps_of t = map (fun n => inject_Z (backoff n)) (range_from 1 k).
Proof.
  destruct (first_non_transient (Z.to_nat retries) w) as [H|(k & Hk & H & E)].
  - exists (Z.to_nat retries), (emitted_by (lookup_postcode geolocator address retries) w).
    rewrite lookup_emits_failures by done.
    rewrite calls_in_app, sleeps_of_app, calls_in_failures, sleeps_of_failures by done.
    simpl. rewrite app_nil_r. repeat split; lia.
  - exists k, (emitted_by (lookup_postcode geolocator address retries) w).
    destruct (geolocator (calls w + k) address) as [loc|e] eqn:G.
    + rewrite (lookup_emits_return _ k loc) by done.
      rewrite calls_in_app, sleeps_of_app, calls_in_failures, sleeps_of_failures by done.
      simpl. rewrite app_nil_r. repeat split; lia.
    + rewrite (lookup_emits_propagate _ k e) by done.
      rewrite calls_in_app, sleeps_of_app, calls_in_failures, sleeps_of_failures by done.
      simpl. rewrite app_nil_r. repeat split; lia.
Qed.

(** A lookup only adds to the timeline, and at most [retries] calls. *)
Lemma lookup_trace retries w :
  exists t,
    trace (snd (lookup_postcode geolocator address retries w)) = trace w ++ t
    /\ (calls_in t <= Z.to_nat retries)%nat.
Proof.
  destruct (first_non_transient (Z.to_nat retries) w) as [H|(k & Hk & H & E)].
  - rewrite lookup_exhausted by done. eexists. split; [done|].
    rewrite calls_in_app, calls_in_failures. simpl. lia.
  - destruct (geolocator (calls w + k) address) as [loc|e] eqn:G.
    + rewrite (lookup_returns _ k loc) by done. eexists. split; [done|].
      rewrite calls_in_app, calls_in_failures. simpl. lia.
    + rewrite (lookup_propagates _ k e) by done. eexists. split; [done|].
      rewrite calls_in_app, calls_in_failures. simpl. lia.
Qed.

End Facts.

End ZipcodeFinderFacts.

(** ** The pass over the rows *)

(** What the test of the fill loop counts as blank, on examples: an empty
    cell, an empty or white-space string, and also the falsy values [0] and
    [False]; a cell holding any other value is not blank. *)
Example zip_is_blank_examples :
  map zip_is_blank [VNone; VStr ""; VStr "  "; VInt 0; VBool false]
  = [true; true; true; true; true]
  /\ map zip_is_blank [VStr "02134"; VStr " 9 "; VInt 2134; VBool true]
     = [false; false; false; false].
Proof. split; reflexivity. Qed.

(** A cell that is not blank holds a truthy value. *)
Lemma not_blank_truthy v : zip_is_blank v = false -> truthy v = true.
Proof.
  unfold zip_is_blank. intros H. apply orb_false_elim in H as [H _].
  by apply negb_false_iff in H.
Qed.

(** The test of the loop, spelled out. *)
Lemma zip_is_blank_true v :
  zip_is_blank v = true <-> truthy v = false \/ strip (str v) = ""%string.
Proof.
  unfold zip_is_blank. rewrite orb_true_iff, negb_true_iff.
  by rewrite String.eqb_eq.
Qed.

Lemma zip_is_blank_false v :
  truthy v = true -> strip (str v) <> ""%string -> zip_is_blank v = false.
Proof.
  intros T N. destruct (zip_is_blank v) eqn:B; [|done].
  apply zip_is_blank_true in B. destruct B; congruence.
Qed.

Module FillFacts.
Import ZipcodeFinderFacts.

Section Facts.

Variable geolocator : nat -> py_value -> geocode_result.
Variable random : nat -> Q.
Variables col_zip col_address : Z.

Local Abbreviation fill_row := (ZipcodeFinder.fill_row geolocator random col_zip col_address).
Local Abbreviation blank_row := (ZipcodeFinderTerms.blank_row col_zip).
Local Abbreviation blank_rows := (ZipcodeFinderTerms.blank_rows col_zip).

Lemma ws_cell_insert m cs k c row column :
  ws_cell (Worksheet m (<[k := c]> cs)) row column
  = if decide (k = (row, column)) then c else ws_cell (Worksheet m cs) row column.
Proof.
  unfold ws_cell. simpl. rewrite lookup_insert. by case_decide.
Qed.

(** A row whose zip cell is not blank is passed over. *)
Lemma fill_row_skips row s :
  blank_row (fst s) row = false -> fill_row row s = (Returned tt, s).
Proof.
  unfold ZipcodeFinderTerms.blank_row, ZipcodeFinder.fill_row, bind, get_cell. simpl. by intros ->.
Qed.

(** One row: only its own zip cell can change, only when it was blank, and
    at most three calls are made. *)
Lemma fill_row_effect row s :
  exists t,
    max_row (fst (snd (fill_row row s))) = max_row (fst s)
    /\ (forall r c,
          ws_cell (fst (snd (fill_row row s))) r c <> ws_cell (fst s) r c ->
          r = row /\ c = col_zip /\ blank_row (fst s) row = true)
    /\ trace (snd (snd (fill_row row s))) = trace (snd s) ++ t
    /\ (calls_in t <= if blank_row (fst s) row then 3 else 0)%nat.
Proof.
  destruct (blank_row (fst s) row) eqn:B.
  2:{ rewrite fill_row_skips by done. exists []. simpl. rewrite app_nil_r.
      split; [done|]. split; [by intros r c H|]. split; [done|lia]. }
  unfold ZipcodeFinderTerms.blank_row in B.
  unfold ZipcodeFinder.fill_row, bind, get_cell. simpl. rewrite B.
  set (address := py_or _ _).
  destruct (lookup_trace geolocator address 3 (snd s)) as (t & Ht & Hc).
  unfold lift, set_cell, log, sleep, emit, random_uniform, ret.
  destruct (lookup_postcode geolocator address 3 (snd s)) as [[postcode|e] w1].
  2:{ simpl in *. exists t. split; [done|]. split; [by intros r c H|]. done. }
  simpl in Ht.
  destruct (negb (String.eqb postcode "")); simpl.
  - exists (t ++ [EvLog INFO (MsgRowFilled row postcode);
                  EvSleep (1 + (5 - 1) * random (draws w1))%Q]).
    split; [done|]. split; [|split].
    + intros r c. destruct s as [[m cs] w]. simpl. rewrite !ws_cell_insert.
      case_decide as D; [by injection D as <- <-|done].
    + rewrite Ht, <- !app_assoc. done.
    + rewrite calls_in_app. simpl in *. lia.
  - exists (t ++ [EvLog INFO (MsgRowNoZip row address);
                  EvSleep (1 + (5 - 1) * random (draws w1))%Q]).
    split; [done|]. split; [done|]. split.
    + rewrite Ht, <- !app_assoc. done.
    + rewrite calls_in_app. simpl in *. lia.
Qed.

Lemma blank_rows_cons ws r l :
  length (blank_rows ws (r :: l))
  = ((if blank_row ws r then 1 else 0) + length (blank_rows ws l))%nat.
Proof.
  unfold ZipcodeFinderTerms.blank_rows. destruct (blank_row ws r) eqn:B.
  - by rewrite filter_cons_True.
  - rewrite filter_cons_False by congruence. done.
Qed.

(** The loop: cells change only in the zip column, at rows of the list that
    were blank, and the calls are at most three for each of these. *)
Lemma for_each_effect (l : list Z) s :
  exists t,
    max_row (fst (snd (for_each fill_row l s))) = max_row (fst s)
    /\ (forall r c,
          ws_cell (fst (snd (for_each fill_row l s))) r c <> ws_cell (fst s) r c ->
          c = col_zip /\ r ∈ l /\ blank_row (fst s) r = true)
    /\ trace (snd (snd (for_each fill_row l s))) = trace (snd s) ++ t
    /\ (calls_in t <= 3 * length (blank_rows (fst s) l))%nat.
Proof.
  revert s. induction l as [|row l IH]; intros s.
  - exists []. simpl. rewrite app_nil_r.
    split; [done|]. split; [by intros r c H|]. split; [done|lia].
  - destruct (fill_row_effect row s) as (t1 & Hm1 & Hf1 & Ht1 & Hc1).
    simpl. unfold bind.
    destruct (fill_row row s) as [[[]|e] s1] eqn:E; simpl in *.
    2:{ exists t1. split; [done|]. split; [|split; [done|]].
        - intros r c H. destruct (Hf1 r c H) as (-> & -> & B).
          split; [done|]. split; [left|done].
        - rewrite blank_rows_cons. destruct (blank_row (fst s) row); lia. }
    destruct (IH s1) as (t2 & Hm2 & Hf2 & Ht2 & Hc2).
    exists (t1 ++ t2). split; [congruence|]. split; [|split].
    + intros r c H.
      destruct (decide (ws_cell (fst s1) r c = ws_cell (fst s) r c)) as [Eq|Ne].
      * rewrite <- Eq in H. destruct (Hf2 r c H) as (-> & Hin & B).
        split; [done|]. split; [by right|].
        unfold ZipcodeFinderTerms.blank_row in *.
        destruct (decide (ws_cell (fst s1) r col_zip = ws_cell (fst s) r col_zip))
          as [Eq'|Ne']; [by rewrite <- Eq'|].
        by destruct (Hf1 r col_zip Ne') as (-> & _ & ?).
      * destruct (Hf1 r c Ne) as (-> & -> & B). split; [done|]. split; [left|done].
    + by rewrite Ht2, Ht1, app_assoc.
    + rewrite calls_in_app.
      assert (length (blank_rows (fst s1) l) <= length (blank_rows (fst s) l))%nat.
      { clear -Hf1. induction l as [|r l IHl]; [done|].
        rewrite !blank_rows_cons.
        destruct (blank_row (fst s1) r) eqn:B1; [|lia].
        assert (blank_row (fst s) r = true) as ->; [|lia].
        unfold ZipcodeFinderTerms.blank_row in *.
        destruct (decide (ws_cell (fst s1) r col_zip = ws_cell (fst s) r col_zip))
          as [Eq'|Ne']; [by rewrite <- Eq'|].
        by destruct (Hf1 r col_zip Ne') as (-> & _ & ?). }
      rewrite blank_rows_cons. destruct (blank_row (fst s) row); lia.
Qed.

End Facts.

End FillFacts.

Example fill_blank_zips_sample :
  let run := fill_blank_zips flaky_geocoder (fun _ => 0%Q) 2 1 (sample_sheet, w0) in
  map (fun row => ws_cell (fst (snd run)) row 2) [2; 3; 4]
  = [Cell (VStr "02134") yellow_fill; Cell (VInt 90210) no_fill;
     Cell (VStr "02134") yellow_fill]
  /\ calls_in (trace (snd (snd run))) = 4%nat.
Proof. split; reflexivity. Qed.


(** * The claims *)

Import UrlCheckerFacts ZipcodeFinderFacts FillFacts.

(** ** C1: what the caller receives *)

(** C1, as stated, fails for [lookup_postcode]: a geocoder that raises an
    exception outside the three classes of the [except] clause makes the
    lookup raise instead of returning. *)
Lemma C1_lookup_postcode_lets_exception_through :
  ~ exists v w',
      lookup_postcode (fun _ _ => GeoRaises GeocoderServiceError)
                      (VStr "456 Elm St") 3 w0
      = (Returned v, w').
Proof. intros (v & w' & E). vm_compute in E. discriminate E. Qed.

(** C1, amended: [check_url] raises [e] exactly when an attempt it reaches
    raises [e] and [e] is not an instance of [Exception] (a
    [KeyboardInterrupt], a [SystemExit]); so it returns a result whenever
    the session raises nothing but instances of [Exception], of whatever
    class.  [lookup_postcode] raises [e] exactly when an attempt it reaches
    raises [e] and [e] is not a [GeocoderTimedOut], a [GeocoderUnavailable]
    or a [RequestException]; so it returns a result whenever the geocoder
    raises nothing but these. *)
Theorem C1_lookups_raise_exactly_what_they_do_not_catch
    session geolocator random url address max_attempts w :
  (forall e,
     fst (check_url session random url max_attempts w) = Raised e
     <-> exists k,
           (k < Z.to_nat max_attempts)%nat
           /\ (forall i, (i < k)%nat ->
                         retryable (session (calls w + i)%nat url) = true)
           /\ session (calls w + k)%nat url = GetRaises e
           /\ is_Exception e = false)
  /\ ((forall n e, session n url = GetRaises e -> is_Exception e = true) ->
      exists v w', check_url session random url max_attempts w = (Returned v, w'))
  /\ (forall e,
        fst (lookup_postcode geolocator address max_attempts w) = Raised e
        <-> exists k,
              (k < Z.to_nat max_attempts)%nat
              /\ (forall i, (i < k)%nat ->
                            transient (geolocator (calls w + i)%nat address) = true)
              /\ geolocator (calls w + k)%nat address = GeoRaises e
              /\ caught e = false)
  /\ ((forall n e, geolocator n address = GeoRaises e -> caught e = true) ->
      exists v w', lookup_postcode geolocator address max_attempts w = (Returned v, w')).
Proof.
  split; [|split; [|split]].
  - intros e. split.
    + intros R.
      destruct (check_url_run session random url max_attempts w)
        as [[_ E]|[(k & r & _ & _ & _ & _ & E)|(k & e' & Hk & H & G & F & E)]];
        rewrite E in R; cbn [fst] in R; [discriminate R|discriminate R|].
      injection R as ->. by exists k.
    + intros (k & Hk & H & G & F). by rewrite (check_url_interrupted _ _ _ _ k e).
  - intros Hc.
    destruct (check_url_run session random url max_attempts w)
      as [[_ E]|[(k & r & _ & _ & _ & _ & E)|(k & e & _ & _ & G & F & _)]]; eauto.
    apply Hc in G. congruence.
  - intros e. split.
    + intros R.
      destruct (first_non_transient geolocator address (Z.to_nat max_attempts) w)
        as [H|(k & Hk & H & T)].
      * rewrite lookup_exhausted in R by done. discriminate R.
      * destruct (geolocator (calls w + k)%nat address) as [loc|e'] eqn:G.
        -- rewrite (lookup_returns _ _ _ k loc) in R by done. discriminate R.
        -- rewrite (lookup_propagates _ _ _ k e') in R by done.
           injection R as ->. exists k. by rewrite G.
    + intros (k & Hk & H & G & C). by rewrite (lookup_propagates _ _ _ k e).
  - intros Hc.
    destruct (first_non_transient geolocator address (Z.to_nat max_attempts) w)
      as [H|(k & Hk & H & T)].
    + rewrite lookup_exhausted by done. eauto.
    + destruct (geolocator (calls w + k)%nat address) as [loc|e] eqn:G.
      * rewrite (lookup_returns _ _ _ k loc) by done. eauto.
      * apply Hc in G. simpl in T. congruence.
Qed.

Lemma C1_witness :
  (exists v w',
     check_url (fun _ _ => GetRaises (OtherException "boom")) (fun _ => 0%Q)
               "http://example.com" 3 w0
     = (Returned v, w'))
  /\ (exists v w',
        lookup_postcode flaky_geocoder (VStr "123 Main St") 3 w0 = (Returned v, w')).
Proof.
  destruct (C1_lookups_raise_exactly_what_they_do_not_catch
              (fun _ _ => GetRaises (OtherException "boom")) flaky_geocoder
              (fun _ => 0%Q) "http://example.com" (VStr "123 Main St") 3 w0)
    as (_ & H1 & _ & H2).
  split.
  - apply H1. intros n e [= <-]. reflexivity.
  - apply H2. intros [|[|n]] e; simpl; intros [= <-]; reflexivity.
Defined.

(** ** C2: telling [Failed] from [Empty] *)

(** C2, as stated, fails for [lookup_postcode]: with a geocoder that times
    out on all three attempts it returns the very value it returns when the
    geocoder finds nothing. *)
Lemma C2_exhausted_lookup_returns_the_no_data_value :
  fst (lookup_postcode (fun _ _ => GeoRaises GeocoderTimedOut) (VStr "456 Elm St") 3 w0)
  = fst (lookup_postcode (fun _ _ => GeoReturns None) (VStr "456 Elm St") 3 w0).
Proof. reflexivity. Qed.

(** C2, amended: [check_url] returns a pair whose first component is
    [None] exactly when every attempt had to be retried, the pair being then
    [(None, "Failed after retries")]; and when the first attempt that is not
    retried gets a response, it returns the status code of that very
    response with its comment.  So its caller can tell the two apart.
    [lookup_postcode] returns the empty string both when every attempt
    failed ([g_fail]) and when a call completed without a postcode
    ([g_empty]); the two runs differ only in the record logged at level
    [ERROR] on exhaustion. *)
Theorem C2_failure_tagged_by_check_url_logged_by_lookup_postcode
    session random url g_fail g_empty address max_attempts w loc :
  1 <= max_attempts ->
  (forall n, transient (g_fail n address) = true) ->
  g_empty (calls w) address = GeoReturns loc ->
  postcode_field loc = None ->
  ((exists c, fst (check_url session random url max_attempts w) = Returned (None, c))
   <-> (forall i, (i < Z.to_nat max_attempts)%nat ->
                  retryable (session (calls w + i)%nat url) = true))
  /\ ((forall i, (i < Z.to_nat max_attempts)%nat ->
                 retryable (session (calls w + i)%nat url) = true) ->
      fst (check_url session random url max_attempts w)
      = Returned (None, "Failed after retries"%string))
  /\ (forall k r,
        (k < Z.to_nat max_attempts)%nat ->
        (forall i, (i < k)%nat -> retryable (session (calls w + i)%nat url) = true) ->
        session (calls w + k)%nat url = GetReturns r ->
        soft_failure r = false ->
        fst (check_url session random url max_attempts w)
        = Returned (Some (status_code r),
                    default "Unknown"%string (RESPONSE_CODES !! status_code r)))
  /\ fst (lookup_postcode g_fail address max_attempts w) = Returned ""%string
  /\ fst (lookup_postcode g_empty address max_attempts w) = Returned ""%string
  /\ errors_of (emitted_by (lookup_postcode g_fail address max_attempts) w)
     = [MsgAllRetriesFailed address]
  /\ errors_of (emitted_by (lookup_postcode g_empty address max_attempts) w) = [].
Proof.
  intros Hmax Hfail Hempty Hnone.
  assert (H0 : (0 < Z.to_nat max_attempts)%nat) by lia.
  assert (Hprefix : forall i, (i < 0)%nat ->
            transient (g_empty (calls w + i)%nat address) = true) by lia.
  rewrite <- (Nat.add_0_r (calls w)) in Hempty.
  split; [|split; [|split; [|split; [|split; [|split]]]]].
  - split.
    + intros (c & R).
      destruct (check_url_run session random url max_attempts w)
        as [[H _]|[(k & r & _ & _ & _ & _ & E)|(k & e & _ & _ & _ & _ & E)]];
        [done| |]; rewrite E in R; cbn [fst] in R; unfold success in R; discriminate R.
    + intros H. rewrite check_url_exhausted by done. eauto.
  - intros H. by rewrite check_url_exhausted.
  - intros k r Hk H E F. by rewrite (check_url_accepts _ _ _ _ k r).
  - by rewrite lookup_exhausted.
  - rewrite (lookup_returns _ _ _ O loc) by done. unfold answer. by rewrite Hnone.
  - rewrite lookup_emits_failures by done.
    by rewrite errors_of_app, errors_of_failures.
  - by rewrite (lookup_emits_return _ _ _ O loc).
Qed.

Lemma C2_witness :
  fst (lookup_postcode (fun _ _ => GeoRaises GeocoderTimedOut) (VStr "456 Elm St") 3 w0)
  = Returned ""%string
  /\ errors_of (emitted_by (lookup_postcode (fun _ _ => GeoRaises GeocoderTimedOut)
                                            (VStr "456 Elm St") 3) w0)
     = [MsgAllRetriesFailed (VStr "456 Elm St")]
  /\ errors_of (emitted_by (lookup_postcode (fun _ _ => GeoReturns None)
                                            (VStr "456 Elm St") 3) w0)
     = [].
Proof.
  pose proof (C2_failure_tagged_by_check_url_logged_by_lookup_postcode
                (fun _ _ => GetReturns (Response 200 None)) (fun _ => 0%Q)
                "http://example.com"
                (fun _ _ => GeoRaises GeocoderTimedOut) (fun _ _ => GeoReturns None)
                (VStr "456 Elm St") 3 w0 None) as H.
  destruct H as (_ & _ & _ & H1 & _ & H2 & H3); [lia|reflexivity|reflexivity|reflexivity|].
  exact (conj H1 (conj H2 H3)).
Defined.

(** ** C3: a transport that always asks for a retry *)

(** C3, as stated, fails for [lookup_postcode]: when the geocoder is
    unavailable on every call, what the lookup returns after its three
    calls is no failure but the empty string, the value it returns for an
    address that has no postcode. *)
Lemma C3_exhausted_lookup_postcode_returns_no_failure :
  (forall n, transient ((fun (_ : nat) (_ : py_value) => GeoRaises GeocoderUnavailable)
                          n (VStr "1 Main St")) = true)
  /\ calls_in (emitted_by (lookup_postcode (fun _ _ => GeoRaises GeocoderUnavailable)
                                           (VStr "1 Main St") 3) w0)
     = 3%nat
  /\ fst (lookup_postcode (fun _ _ => GeoRaises GeocoderUnavailable) (VStr "1 Main St") 3 w0)
     = Returned ""%string
  /\ fst (lookup_postcode (fun _ _ => GeoReturns (Some city_only)) (VStr "1 Main St") 3 w0)
     = Returned ""%string.
Proof. repeat split; reflexivity. Qed.

(** C3, amended: when every call has to be retried, a lookup makes exactly
    [max_attempts] calls; [check_url] then returns
    [(None, "Failed after retries")], and [lookup_postcode] logs its
    [ERROR] record and returns the empty string. *)
Theorem C3_always_retryable_fails_after_max_attempts
    session geolocator random url address max_attempts w :
  0 <= max_attempts ->
  (forall n, retryable (session n url) = true) ->
  (forall n, transient (geolocator n address) = true) ->
  fst (check_url session random url max_attempts w)
  = Returned (None, "Failed after retries"%string)
  /\ Z.of_nat (calls_in (emitted_by (check_url session random url max_attempts) w))
     = max_attempts
  /\ fst (lookup_postcode geolocator address max_attempts w) = Returned ""%string
  /\ errors_of (emitted_by (lookup_postcode geolocator address max_attempts) w)
     = [MsgAllRetriesFailed address]
  /\ Z.of_nat (calls_in (emitted_by (lookup_postcode geolocator address max_attempts) w))
     = max_attempts.
Proof.
  intros Hmax Hs Hg. repeat split.
  - by rewrite check_url_exhausted.
  - rewrite check_url_emits_retries, calls_in_retries by done. lia.
  - by rewrite lookup_exhausted.
  - rewrite lookup_emits_failures by done.
    by rewrite errors_of_app, errors_of_failures.
  - rewrite lookup_emits_failures by done.
    rewrite calls_in_app, calls_in_failures. simpl. lia.
Qed.

Lemma C3_witness :
  Z.of_nat (calls_in (emitted_by
              (check_url (fun _ _ => GetReturns (Response 429 None)) (fun _ => 0%Q)
                         "http://example.com" 3) w0)) = 3
  /\ Z.of_nat (calls_in (emitted_by
                 (lookup_postcode (fun _ _ => GeoRaises GeocoderTimedOut)
                                  (VStr "456 Elm St") 3) w0)) = 3.
Proof.
  pose proof (C3_always_retryable_fails_after_max_attempts
                (fun _ _ => GetReturns (Response 429 None))
                (fun _ _ => GeoRaises GeocoderTimedOut) (fun _ => 0%Q)
                "http://example.com" (VStr "456 Elm St") 3 w0) as H.
  destruct H as (_ & H1 & _ & _ & H2); [lia|reflexivity|reflexivity|].
  exact (conj H1 H2).
Defined.

(** ** C4: success after [k] retries *)

(** C4: when the first [k < max_attempts] calls have to be retried and the
    next one succeeds, the lookup returns that success after [k + 1] calls
    and [k] sleeps; for [k = 0] that is one call and no sleep. *)
Theorem C4_success_after_k_retries
    session geolocator random url address max_attempts w k r loc postcode :
  Z.of_nat k < max_attempts ->
  (forall i, (i < k)%nat -> retryable (session (calls w + i)%nat url) = true) ->
  session (calls w + k)%nat url = GetReturns r ->
  soft_failure r = false ->
  (forall i, (i < k)%nat -> transient (geolocator (calls w + i)%nat address) = true) ->
  geolocator (calls w + k)%nat address = GeoReturns loc ->
  postcode_field loc = Some postcode ->
  (fst (check_url session random url max_attempts w)
   = Returned (Some (status_code r),
               default "Unknown"%string (RESPONSE_CODES !! status_code r))
   /\ calls_in (emitted_by (check_url session random url max_attempts) w) = S k
   /\ length (sleeps_of (emitted_by (check_url session random url max_attempts) w)) = k)
  /\ (fst (lookup_postcode geolocator address max_attempts w) = Returned postcode
      /\ calls_in (emitted_by (lookup_postcode geolocator address max_attempts) w) = S k
      /\ length (sleeps_of (emitted_by (lookup_postcode geolocator address max_attempts) w))
         = k).
Proof.
  intros Hk Hs Es Fs Hg Eg Pg.
  assert (Hk' : (k < Z.to_nat max_attempts)%nat) by lia.
  split; repeat split.
  - by rewrite (check_url_accepts _ _ _ _ k r).
  - rewrite (check_url_emits_accept _ _ _ _ k r) by done.
    rewrite calls_in_app, calls_in_retries. simpl. lia.
  - rewrite (check_url_emits_accept _ _ _ _ k r) by done.
    rewrite sleeps_of_app, length_app, sleeps_in_retries. simpl. lia.
  - rewrite (lookup_returns _ _ _ k loc) by done. unfold answer. by rewrite Pg.
  - rewrite (lookup_emits_return _ _ _ k loc) by done.
    rewrite calls_in_app, calls_in_failures. simpl. lia.
  - rewrite (lookup_emits_return _ _ _ k loc) by done.
    rewrite sleeps_of_app, sleeps_of_failures by done.
    rewrite length_app, length_map, range_from_length. simpl. lia.
Qed.

Lemma C4_witness :
  fst (check_url flaky_session (fun _ => 0%Q) "http://example.com" 3 w0)
  = Returned (Some 200, "OK"%string)
  /\ fst (lookup_postcode flaky_geocoder (VStr "123 Main St") 3 w0)
     = Returned "02134"%string.
Proof.
  pose proof (C4_success_after_k_retries
                flaky_session flaky_geocoder (fun _ => 0%Q)
                "http://example.com" (VStr "123 Main St") 3 w0 2
                (Response 200 (Some "<html>hello</html>"%string))
                (Some (Location (Some {[ "postcode"%string := "02134"%string ]})))
                "02134"%string) as H.
  destruct H as ((H1 & _) & (H2 & _)).
  - lia.
  - intros [|[|i]] Hi; [reflexivity|reflexivity|lia].
  - reflexivity.
  - reflexivity.
  - intros [|[|i]] Hi; [reflexivity|reflexivity|lia].
  - reflexivity.
  - reflexivity.
  - exact (conj H1 H2).
Defined.

(** ** C5: which attempts are retried *)

(** C5, as stated, fails: [requests] rejects a malformed URL with
    [InvalidURL] before anything goes over the network, which is neither a
    transport-level error nor a soft failure, and [check_url] retries it all
    the same, three calls and three sleeps. *)
Lemma C5_check_url_retries_a_non_transport_exception :
  spec_retryable (GetRaises (RequestException ReqInvalidURL)) = false
  /\ fst (check_url_attempt (fun _ _ => GetRaises (RequestException ReqInvalidURL))
                            (fun _ => 0%Q) "http://[" w0)
     = Returned None
  /\ calls_in (emitted_by (check_url (fun _ _ => GetRaises (RequestException ReqInvalidURL))
                                     (fun _ => 0%Q) "http://[" 3) w0)
     = 3%nat.
Proof. repeat split; reflexivity. Qed.

(** C5, amended: an attempt of [check_url] is retried if and only if the
    call raises an instance of [Exception], of any class, or the response
    has status 429 or 503 or a body that contains [captcha] once
    lower-cased; every other response makes [check_url] return its status
    code at once, with no sleep; and an exception that is not an instance of
    [Exception] is not retried: it leaves the attempt right after the
    call. *)
Theorem C5_retried_iff_Exception_or_soft_failure session random url w :
  (fst (check_url_attempt session random url w) = Returned None
   <-> (exists e, session (calls w) url = GetRaises e /\ is_Exception e = true)
       \/ (exists r,
             session (calls w) url = GetReturns r
             /\ (status_code r = 429 \/ status_code r = 503
                 \/ str_in "captcha" (lower (default ""%string (text r))) = true)))
  /\ (forall r,
        session (calls w) url = GetReturns r ->
        status_code r <> 429 -> status_code r <> 503 ->
        str_in "captcha" (lower (default ""%string (text r))) = false ->
        check_url_attempt session random url w
        = (Returned (Some (Some (status_code r),
                           default "Unknown"%string (RESPONSE_CODES !! status_code r))),
           World (S (calls w)) (draws w) (trace w ++ [EvGet url])))
  /\ (forall e,
        session (calls w) url = GetRaises e ->
        is_Exception e = false ->
        check_url_attempt session random url w
        = (Raised e, World (S (calls w)) (draws w) (trace w ++ [EvGet url]))).
Proof.
  split; [|split].
  - destruct (session (calls w) url) as [r|e] eqn:E.
    + destruct (soft_failure r) eqn:F.
      * rewrite attempt_retried by (by rewrite E). split; [|done].
        intros _. right. exists r. split; [done|]. by apply soft_failure_iff.
      * rewrite (attempt_accepted _ _ _ _ r) by done. split; [done|].
        intros [(e & [=] & _)|(r' & [= <-] & H)].
        apply soft_failure_iff in H. congruence.
    + destruct (is_Exception e) eqn:F.
      * rewrite attempt_retried by (by rewrite E). split; [|done]. eauto.
      * rewrite (attempt_interrupted _ _ _ _ e) by done. split; [done|].
        intros [(e' & [= <-] & H)|(r & [=] & _)]. congruence.
  - intros r E H1 H2 H3. apply attempt_accepted; [done|].
    destruct (soft_failure r) eqn:F; [|done].
    apply soft_failure_iff in F. destruct F as [?|[?|?]]; congruence.
  - intros e E F. by apply attempt_interrupted.
Qed.

Lemma C5_witness :
  check_url_attempt (fun _ _ => GetReturns (Response 404 (Some "not here"%string)))
                    (fun _ => 0%Q) "http://example.com/missing" w0
  = (Returned (Some (Some 404, "Not Found"%string)),
     World 1 0 [EvGet "http://example.com/missing"])
  /\ check_url_attempt (fun _ _ => GetRaises KeyboardInterrupt)
                       (fun _ => 0%Q) "http://example.com/missing" w0
     = (Raised KeyboardInterrupt, World 1 0 [EvGet "http://example.com/missing"]).
Proof.
  split.
  - destruct (C5_retried_iff_Exception_or_soft_failure
                (fun _ _ => GetReturns (Response 404 (Some "not here"%string)))
                (fun _ => 0%Q) "http://example.com/missing" w0) as (_ & H & _).
    apply (H (Response 404 (Some "not here"%string)));
      [reflexivity|discriminate|discriminate|reflexivity].
  - destruct (C5_retried_iff_Exception_or_soft_failure
                (fun _ _ => GetRaises KeyboardInterrupt)
                (fun _ => 0%Q) "http://example.com/missing" w0) as (_ & _ & H).
    apply (H KeyboardInterrupt); reflexivity.
Defined.

(** ** C6: the delays *)

(** C6: the delays [lookup_postcode] sleeps are non-decreasing, never above
    20, and the one after attempt [n] is [min(20, 2^n)]; the delays
    [check_url] sleeps are drawn from [2, 4] or [5, 10], so they stay within
    the configured bounds of 1 and 20 seconds. *)
Theorem C6_delays_sorted_and_capped
    session geolocator random url address max_attempts w :
  (forall n, (0 <= random n <= 1)%Q) ->
  (let ds := sleeps_of (emitted_by (lookup_postcode geolocator address max_attempts) w) in
   StronglySorted Qle ds
   /\ Forall (fun d => (d <= 20)%Q) ds
   /\ forall (n : nat) d, ds !! n = Some d -> d = inject_Z (Z.min 20 (2 ^ Z.of_nat (S n))))
  /\ (let ds := sleeps_of (emitted_by (check_url session random url max_attempts) w) in
      Forall (fun d => (2 <= d <= 10)%Q /\ (1 <= d <= 20)%Q) ds).
Proof.
  intros Hr. split.
  - destruct (lookup_shape geolocator address max_attempts w) as (k & t & _ & -> & _ & ->).
    split; [apply backoffs_sorted; lia|]. split; [apply backoffs_capped|].
    intros n d H. rewrite list_lookup_fmap in H.
    destruct (range_from 1 k !! n) as [a|] eqn:E; [|done].
    apply range_from_lookup in E. injection H as <-. subst a.
    unfold backoff. do 3 f_equal. lia.
  - assert (Hb : forall k c d,
              Forall (fun q => (2 <= q <= 10)%Q /\ (1 <= q <= 20)%Q)
                     (sleeps_of (retries_trace session random url k c d))).
    { intros k c d. eapply Forall_impl; [by apply sleeps_in_retries_bounds|].
      simpl. intros q [H2 H10]. repeat split; try done; lra. }
    destruct (first_non_retryable session url (Z.to_nat max_attempts) (calls w))
      as [H|(k & Hk & H & [(r & E & F)|(e & E & F)])]; simpl.
    + rewrite check_url_emits_retries by done. apply Hb.
    + rewrite (check_url_emits_accept _ _ _ _ k r) by done.
      rewrite sleeps_of_app. simpl. rewrite app_nil_r. apply Hb.
    + rewrite (check_url_emits_interrupt _ _ _ _ k e) by done.
      rewrite sleeps_of_app. simpl. rewrite app_nil_r. apply Hb.
Qed.

Lemma C6_witness :
  sleeps_of (emitted_by (lookup_postcode (fun _ _ => GeoRaises GeocoderTimedOut)
                                         (VStr "456 Elm St") 6) w0)
  = [2; 4; 8; 16; 20; 20]%Q
  /\ StronglySorted Qle [2; 4; 8; 16; 20; 20]%Q.
Proof.
  split; [reflexivity|].
  apply (C6_delays_sorted_and_capped
           flaky_session (fun _ _ => GeoRaises GeocoderTimedOut) (fun _ => 1 # 2)%Q
           "http://example.com" (VStr "456 Elm St") 6 w0).
  intros n. split; discriminate.
Defined.

(** The delays of [check_url] need not grow: a soft failure followed by an
    exception sleeps 5 to 10 seconds and then 2 to 4. *)
Example check_url_delays_may_decrease :
  sleeps_of (emitted_by (check_url flaky_session (fun _ => 0%Q) "http://example.com" 3) w0)
  = [5; 2]%Q.
Proof. reflexivity. Qed.

(** ** C7: a call that completes without data *)

(** C7: when a call of [lookup_postcode] completes with no location, or with
    a location whose address has no postcode, the lookup returns the empty
    string right after that call: the call is the last event, so nothing is
    slept for it and no further attempt is made.  The [k] attempts before it
    are those that failed. *)
Theorem C7_no_data_returns_empty_at_once geolocator address max_attempts w k loc :
  Z.of_nat k < max_attempts ->
  (forall i, (i < k)%nat -> transient (geolocator (calls w + i)%nat address) = true) ->
  geolocator (calls w + k)%nat address = GeoReturns loc ->
  (loc = None
   \/ exists l, loc = Some l /\ default ∅ (raw_address l) !! "postcode"%string = None) ->
  fst (lookup_postcode geolocator address max_attempts w) = Returned ""%string
  /\ (exists t,
        emitted_by (lookup_postcode geolocator address max_attempts) w
        = t ++ [EvGeocode address]
        /\ calls_in t = k /\ length (sleeps_of t) = k)
  /\ (k = O ->
      emitted_by (lookup_postcode geolocator address max_attempts) w
      = [EvGeocode address]).
Proof.
  intros Hk H E Hloc.
  assert (Hk' : (k < Z.to_nat max_attempts)%nat) by lia.
  assert (Hnone : postcode_field loc = None).
  { destruct Hloc as [->|(l & -> & Hl)]; done. }
  rewrite (lookup_returns _ _ _ k loc), (lookup_emits_return _ _ _ k loc) by done.
  split; [|split].
  - unfold answer. by rewrite Hnone.
  - eexists. split; [done|]. split; [apply calls_in_failures|].
    rewrite sleeps_of_failures by done. by rewrite length_map, range_from_length.
  - by intros ->.
Qed.

Lemma C7_witness :
  fst (lookup_postcode (fun _ _ => GeoReturns (Some city_only)) (VStr "123 Main St") 3 w0)
  = Returned ""%string
  /\ emitted_by (lookup_postcode (fun _ _ => GeoReturns (Some city_only))
                                 (VStr "123 Main St") 3) w0
     = [EvGeocode (VStr "123 Main St")].
Proof.
  pose proof (C7_no_data_returns_empty_at_once
                (fun _ _ => GeoReturns (Some city_only))
                (VStr "123 Main St") 3 w0 O (Some city_only)) as H.
  destruct H as (H1 & _ & H2).
  - lia.
  - intros i Hi. lia.
  - reflexivity.
  - right. eexists. split; reflexivity.
  - exact (conj H1 (H2 eq_refl)).
Defined.

(** ** C8: what [check_url] never reports as a status *)

(** C8: when [check_url] returns a status code, the code is that of the
    response to the last call it made, it is neither 429 nor 503, and the
    body of that response, lower-cased, does not contain [captcha]. *)
Theorem C8_returned_status_is_not_a_retry_signal
    session random url max_retries w code comment w' :
  check_url session random url max_retries w = (Returned (Some code, comment), w') ->
  code <> 429 /\ code <> 503
  /\ exists k r,
       calls w' = S (calls w + k)
       /\ session (calls w + k)%nat url = GetReturns r
       /\ status_code r = code
       /\ str_in "captcha" (lower (default ""%string (text r))) = false
       /\ comment = default "Unknown"%string (RESPONSE_CODES !! code).
Proof.
  intros R.
  destruct (check_url_run session random url max_retries w)
    as [[_ E']|[(k & r & Hk & H & E & F & E')|(k & e & _ & _ & _ & _ & E')]];
    rewrite E' in R; [discriminate R| |discriminate R].
  - unfold success in R.
    assert (Ew : w' = after_accept session random url k w) by congruence.
    assert (Ecode : code = status_code r) by congruence.
    assert (Ecomment : comment = default "Unknown"%string (RESPONSE_CODES !! code))
      by congruence.
    clear R. subst w' code.
    assert (N : ~ (status_code r = 429 \/ status_code r = 503
                   \/ str_in "captcha" (lower (default ""%string (text r))) = true)).
    { rewrite <- soft_failure_iff. congruence. }
    split; [tauto|]. split; [tauto|].
    exists k, r. repeat split; try done.
    destruct (str_in "captcha" (lower (default ""%string (text r)))); tauto.
Qed.

Lemma C8_witness :
  (200 <> 429 /\ 200 <> 503)
  /\ check_url flaky_session (fun _ => 0%Q) "http://example.com" 3 w0
     = (Returned (Some 200, "OK"%string),
        snd (check_url flaky_session (fun _ => 0%Q) "http://example.com" 3 w0)).
Proof.
  assert (E : check_url flaky_session (fun _ => 0%Q) "http://example.com" 3 w0
              = (Returned (Some 200, "OK"%string),
                 snd (check_url flaky_session (fun _ => 0%Q) "http://example.com" 3 w0)))
    by reflexivity.
  destruct (C8_returned_status_is_not_a_retry_signal _ _ _ _ _ _ _ _ E) as (H1 & H2 & _).
  exact (conj (conj H1 H2) E).
Defined.

(** ** C9: the pass over the rows *)




(** ** C10: the sleep after the last attempt *)

(** C10: when all [max_attempts] attempts have to be retried, the last one
    is followed by its sleep like the others, before the failure is
    returned: there are as many sleeps as calls, [max_attempts] of each. *)
Theorem C10_last_retry_still_sleeps
    session geolocator random url address max_attempts w :
  1 <= max_attempts ->
  (forall i, (i < Z.to_nat max_attempts)%nat ->
             retryable (session (calls w + i)%nat url) = true) ->
  (forall i, (i < Z.to_nat max_attempts)%nat ->
             transient (geolocator (calls w + i)%nat address) = true) ->
  (let t := emitted_by (check_url session random url max_attempts) w in
   Z.of_nat (length (sleeps_of t)) = max_attempts
   /\ length (sleeps_of t) = calls_in t
   /\ exists t' m d, t = t' ++ [EvGet url; EvPrint m; EvSleep d])
  /\ (let t := emitted_by (lookup_postcode geolocator address max_attempts) w in
      Z.of_nat (length (sleeps_of t)) = max_attempts
      /\ length (sleeps_of t) = calls_in t
      /\ exists t' m,
           t = t' ++ [EvGeocode address; EvLog WARNING m;
                      EvSleep (inject_Z (backoff max_attempts));
                      EvLog ERROR (MsgAllRetriesFailed address)]).
Proof.
  intros Hmax Hs Hg.
  destruct (Z.to_nat max_attempts) as [|n] eqn:En; [lia|].
  split; cbv zeta.
  - rewrite check_url_emits_retries by (by rewrite En). rewrite En.
    rewrite sleeps_in_retries, calls_in_retries. repeat split; [lia|].
    apply retries_trace_last.
  - rewrite lookup_emits_failures by (by rewrite En). rewrite En.
    rewrite sleeps_of_app, calls_in_app, calls_in_failures, sleeps_of_failures by done.
    rewrite length_app, length_map, range_from_length.
    change (length (sleeps_of [EvLog ERROR (MsgAllRetriesFailed address)])) with O.
    change (calls_in [EvLog ERROR (MsgAllRetriesFailed address)]) with O.
    repeat split; [lia|].
    destruct (failures_trace_last geolocator address n (calls w) 1) as (t' & m & E).
    { apply Hg. lia. }
    exists t', m. rewrite E, <- app_assoc. simpl.
    replace (1 + Z.of_nat n) with max_attempts by lia. done.
Qed.

Lemma C10_witness :
  sleeps_of (emitted_by (lookup_postcode (fun _ _ => GeoRaises GeocoderTimedOut)
                                         (VStr "456 Elm St") 3) w0)
  = [2; 4; 8]%Q
  /\ Z.of_nat (length (sleeps_of (emitted_by
        (check_url (fun _ _ => GetReturns (Response 503 None)) (fun _ => 0%Q)
                   "http://example.com" 3) w0))) = 3.
Proof.
  split; [reflexivity|].
  apply (C10_last_retry_still_sleeps
           (fun _ _ => GetReturns (Response 503 None))
           (fun _ _ => GeoRaises GeocoderTimedOut) (fun _ => 0%Q)
           "http://example.com" (VStr "456 Elm St") 3 w0).
  - lia.
  - intros i _. reflexivity.
  - intros i _. reflexivity.
Defined.

(** * Further properties of the code *)

Section FindallFacts.

Lemma app_cons_s x (a b : string) : String x a +:+ b = String x (a +:+ b).
Proof. reflexivity. Qed.

Lemma app_nil_l_s (b : string) : "" +:+ b = b.
Proof. reflexivity. Qed.

Lemma app_assoc_s (a b c : string) : (a +:+ b) +:+ c = a +:+ (b +:+ c).
Proof. induction a as [|x a IH]; [done|]. by rewrite !app_cons_s, IH. Qed.

Lemma app_nil_r_s (a : string) : a +:+ "" = a.
Proof. induction a as [|x a IH]; [done|]. by rewrite app_cons_s, IH. Qed.

Lemma length_app_s (a b : string) :
  String.length (a +:+ b) = (String.length a + String.length b)%nat.
Proof. induction a as [|x a IH]; [done|]. rewrite app_cons_s. simpl. by rewrite IH. Qed.

Lemma string_forall_app p (a b : string) :
  string_forall p (a +:+ b) = string_forall p a && string_forall p b.
Proof.
  induction a as [|x a IH]; [done|].
  rewrite app_cons_s. simpl. by rewrite IH, andb_assoc.
Qed.

Lemma prefix_drop (p s : string) :
  String.prefix p s = true -> s = p +:+ string_drop (String.length p) s.
Proof.
  revert s. induction p as [|x p IH]; intros [|y s]; simpl; try done.
  destruct (ascii_dec x y) as [->|]; [|done]. intros H.
  rewrite app_cons_s. f_equal. by apply IH.
Qed.

Lemma prefix_app (p r : string) : String.prefix p (p +:+ r) = true.
Proof.
  induction p as [|x p IH]; [by destruct r|].
  rewrite app_cons_s. simpl. by destruct (ascii_dec x x).
Qed.

Lemma url_chars_split (s : string) :
  exists rest,
    s = url_chars s +:+ rest
    /\ string_forall url_char (url_chars s) = true
    /\ match rest with
       | EmptyString => True
       | String d _ => url_char d = false
       end.
Proof.
  induction s as [|c s (rest & E & F & R)]; simpl.
  - by exists ""%string.
  - destruct (url_char c) eqn:U.
    + exists rest. rewrite app_cons_s. simpl. by rewrite U, <- E.
    + exists (String c s). by rewrite U.
Qed.

(** What a match at the start of [s] looks like: a scheme, a non-empty body
    of characters of the class, and a rest that does not go on with one. *)
Lemma match_at_spec (s u : string) :
  match_at s = Some u ->
  exists sch body rest,
    (sch = "http://"%string \/ sch = "https://"%string)
    /\ u = sch +:+ body /\ body <> ""%string
    /\ string_forall url_char body = true
    /\ s = u +:+ rest
    /\ match rest with
       | EmptyString => True
       | String d _ => url_char d = false
       end.
Proof.
  unfold match_at. intros H.
  assert (Hs : exists sch,
             (sch = "http://"%string \/ sch = "https://"%string)
             /\ String.prefix sch s = true
             /\ match url_chars (string_drop (String.length sch) s) with
                | EmptyString => None
                | body => Some (sch +:+ body)
                end = Some u).
  { destruct (String.prefix "https://" s) eqn:P1; [by eauto|].
    destruct (String.prefix "http://" s) eqn:P2; [by eauto|done]. }
  destruct Hs as (sch & Hsch & P & E).
  destruct (url_chars_split (string_drop (String.length sch) s)) as (rest & Er & F & R).
  destruct (url_chars (string_drop (String.length sch) s)) as [|c body] eqn:B; [done|].
  injection E as <-.
  exists sch, (String c body), rest. repeat split; try done.
  rewrite app_assoc_s, <- Er. by apply prefix_drop.
Qed.

(** A match found by the search is a match at some position of the text. *)
Lemma findall_from_elem skip (s u : string) :
  u ∈ findall_from skip s ->
  exists pre post, s = pre +:+ post /\ match_at post = Some u.
Proof.
  revert skip. induction s as [|c s IH]; intros skip H; simpl in H.
  - by apply elem_of_nil in H.
  - assert (Htail : forall k, u ∈ findall_from k s ->
              exists pre post, String c s = pre +:+ post /\ match_at post = Some u).
    { intros k Hk. destruct (IH k Hk) as (pre & post & -> & M).
      by exists (String c pre), post. }
    destruct skip as [|k]; [|by eauto].
    destruct (match_at (String c s)) as [v|] eqn:M; [|by eauto].
    apply elem_of_cons in H as [->|H]; [|by eauto].
    by exists ""%string, (String c s).
Qed.

Lemma str_in_app (u pre post : string) : str_in u (pre +:+ u +:+ post) = true.
Proof.
  induction pre as [|c pre IH].
  - rewrite app_nil_l_s. pose proof (prefix_app u post) as P.
    destruct (u +:+ post); cbn [str_in]; by rewrite P.
  - rewrite app_cons_s. simpl. rewrite IH. apply orb_true_r.
Qed.

Lemma findall_from_short skip (s : string) :
  (String.length s <= skip)%nat -> findall_from skip s = [].
Proof.
  revert skip. induction s as [|c s IH]; intros skip H; [done|].
  simpl in *. destruct skip as [|k]; [lia|]. apply IH. lia.
Qed.

Lemma prefix_length (p s : string) :
  String.prefix p s = true -> (String.length p <= String.length s)%nat.
Proof.
  intros H. rewrite (prefix_drop p s H), length_app_s. lia.
Qed.

(** A prefix made of characters of the class cannot tell a text from the
    text followed by a character outside the class and anything more. *)
Lemma prefix_app_delim (p a b : string) d :
  string_forall url_char p = true -> url_char d = false ->
  String.prefix p (a +:+ String d b) = String.prefix p a.
Proof.
  intros Hp Hd. revert a. induction p as [|x p IH]; intros a.
  - by destruct a.
  - simpl in Hp. apply andb_true_iff in Hp as [Hx Hp].
    destruct a as [|y a].
    + rewrite app_nil_l_s. simpl. destruct (ascii_dec x d) as [->|]; [congruence|done].
    + rewrite app_cons_s. simpl. destruct (ascii_dec x y); [by apply IH|done].
Qed.

Lemma string_drop_app n (a r : string) :
  (n <= String.length a)%nat -> string_drop n (a +:+ r) = string_drop n a +:+ r.
Proof.
  revert a. induction n as [|n IH]; intros a H; [by destruct a|].
  destruct a as [|y a]; simpl in *; [lia|]. rewrite ?app_cons_s. simpl. apply IH. lia.
Qed.

Lemma url_chars_app_delim (a b : string) d :
  url_char d = false -> url_chars (a +:+ String d b) = url_chars a.
Proof.
  intros Hd. induction a as [|y a IH].
  - rewrite app_nil_l_s. simpl. by rewrite Hd.
  - rewrite app_cons_s. simpl. by rewrite IH.
Qed.

Lemma match_at_app_delim (a b : string) d :
  url_char d = false -> match_at (a +:+ String d b) = match_at a.
Proof.
  intros Hd. unfold match_at.
  rewrite !(prefix_app_delim _ a b d) by done.
  destruct (String.prefix "https://" a) eqn:P1.
  { apply prefix_length in P1.
    by rewrite string_drop_app, url_chars_app_delim. }
  destruct (String.prefix "http://" a) eqn:P2; [|done].
  apply prefix_length in P2.
  by rewrite string_drop_app, url_chars_app_delim.
Qed.

Lemma match_at_length (s u : string) :
  match_at s = Some u -> (1 <= String.length u <= String.length s)%nat.
Proof.
  intros H. destruct (match_at_spec s u H) as (sch & body & rest & Hsch & -> & _ & _ & -> & _).
  rewrite !length_app_s. destruct Hsch as [-> | ->]; simpl; lia.
Qed.

Lemma findall_from_app_delim skip (a b : string) d :
  url_char d = false -> (skip <= String.length a)%nat ->
  findall_from skip (a +:+ String d b) = findall_from skip a ++ findall b.
Proof.
  intros Hd. revert skip. induction a as [|c a IH]; intros skip H.
  - simpl in H. assert (skip = O) as -> by lia.
    rewrite app_nil_l_s.
    change (findall_from 0 (String d b)) with
      (match match_at (String d b) with
       | Some u => u :: findall_from (String.length u - 1) b
       | None => findall_from 0 b
       end).
    rewrite <- (app_nil_l_s (String d b)), match_at_app_delim by done. done.
  - rewrite app_cons_s. simpl in *. destruct skip as [|k]; [|apply IH; lia].
    rewrite <- app_cons_s, match_at_app_delim by done.
    destruct (match_at (String c a)) as [u|] eqn:M.
    + apply match_at_length in M. simpl in M. rewrite IH by lia. done.
    + apply IH. lia.
Qed.

End FindallFacts.

(** X1: every URL the pattern finds is a scheme, [http://] or [https://],
    followed by at least one character; it has no white space, quote,
    closing parenthesis or greater-than sign in it; and it stands in the
    text as it is, not followed by a character it could have gone on
    with. *)
Theorem findall_gives_urls_of_the_text (text u : string) :
  u ∈ findall text ->
  (exists sch body,
     (sch = "http://"%string \/ sch = "https://"%string)
     /\ u = sch +:+ body
     /\ body <> ""%string
     /\ string_forall url_char body = true)
  /\ string_forall url_char u = true
  /\ (exists pre post,
        text = pre +:+ u +:+ post
        /\ match post with
           | EmptyString => True
           | String d _ => url_char d = false
           end)
  /\ str_in u text = true.
Proof.
  intros H. destruct (findall_from_elem _ _ _ H) as (pre & post & -> & M).
  destruct (match_at_spec _ _ M) as (sch & body & rest & Hsch & -> & Hb & Fb & -> & R).
  split; [|split; [|split]].
  - by exists sch, body.
  - rewrite string_forall_app, Fb. by destruct Hsch as [-> | ->].
  - by exists pre, rest.
  - apply str_in_app.
Qed.

Lemma findall_gives_urls_of_the_text_witness :
  str_in "https://b.org/z" "see (https://b.org/z) and more" = true.
Proof.
  destruct (findall_gives_urls_of_the_text
              "see (https://b.org/z) and more" "https://b.org/z") as (_ & _ & _ & H);
    [|exact H].
  vm_compute. apply list_elem_of_here.
Defined.

(** X2: a character outside the class separates the search: the URLs of a
    text cut at such a character are those of the part before it, then
    those of the part after it. *)
Theorem findall_splits_at_a_delimiter (a b : string) (d : ascii) :
  url_char d = false ->
  findall (a +:+ String d b) = findall a ++ findall b.
Proof.
  intros Hd. apply findall_from_app_delim; [done|lia].
Qed.

Lemma findall_splits_at_a_delimiter_witness :
  findall ("http://a.com/x" +:+ String " " "or https://b.org")
  = findall "http://a.com/x" ++ findall "or https://b.org".
Proof. apply findall_splits_at_a_delimiter. reflexivity. Defined.

Lemma url_chars_all (b : string) : string_forall url_char b = true -> url_chars b = b.
Proof.
  induction b as [|c b IH]; [done|]. simpl. intros [Hc Hb]%andb_true_iff.
  by rewrite Hc, IH.
Qed.

Lemma match_at_whole (sch body : string) :
  sch = "http://"%string \/ sch = "https://"%string ->
  body <> ""%string -> string_forall url_char body = true ->
  match_at (sch +:+ body) = Some (sch +:+ body).
Proof.
  intros Hsch Hb Fb. unfold match_at.
  assert (D : string_drop (String.length sch) (sch +:+ body) = body).
  { destruct Hsch as [-> | ->]; reflexivity. }
  destruct Hsch as [-> | ->].
  - replace (String.prefix "https://" ("http://" +:+ body)) with false
      by (by rewrite !app_cons_s).
    rewrite prefix_app, D, url_chars_all by done. by destruct body.
  - rewrite prefix_app, D, url_chars_all by done. by destruct body.
Qed.

(** X3: a URL standing alone is found as it is, and one followed by a
    character outside the class is found whole, the search going on after
    that character. *)
Theorem findall_finds_a_delimited_url (sch body rest : string) (d : ascii) :
  sch = "http://"%string \/ sch = "https://"%string ->
  body <> ""%string -> string_forall url_char body = true ->
  url_char d = false ->
  findall (sch +:+ body) = [sch +:+ body]
  /\ findall ((sch +:+ body) +:+ String d rest) = (sch +:+ body) :: findall rest.
Proof.
  intros Hsch Hb Fb Hd.
  assert (E : findall (sch +:+ body) = [sch +:+ body]).
  { pose proof (match_at_whole sch body Hsch Hb Fb) as M.
    unfold findall. destruct (sch +:+ body) as [|c u] eqn:Eu.
    { destruct Hsch as [-> | ->]; discriminate Eu. }
    simpl. rewrite M. f_equal. apply findall_from_short. simpl. lia. }
  split; [done|]. unfold findall in *.
  rewrite findall_from_app_delim by (done || lia). by rewrite E.
Qed.

Lemma findall_finds_a_delimited_url_witness :
  findall ("https://" +:+ "example.com/a.b") = ["https://example.com/a.b"%string]
  /\ findall (("https://" +:+ "example.com/a.b") +:+ String ">" " tail")
     = "https://example.com/a.b"%string :: findall " tail".
Proof.
  apply (findall_finds_a_delimited_url "https://" "example.com/a.b" " tail" ">");
    [by right|discriminate|reflexivity|reflexivity].
Defined.

Lemma findall_join_newline (ps : list string) :
  findall (join newline ps) = concat (map findall ps).
Proof.
  induction ps as [|p ps IH]; [done|].
  destruct ps as [|q ps].
  - simpl. by rewrite app_nil_r.
  - change (join newline (p :: q :: ps)) with (p +:+ newline +:+ join newline (q :: ps)).
    unfold newline at 1. rewrite app_cons_s, app_nil_l_s.
    unfold findall in *. rewrite findall_from_app_delim by (reflexivity || lia).
    unfold findall. by rewrite IH.
Qed.

(** X4: the URLs of a Word document are those of its paragraphs taken one by
    one: joining the paragraphs with a newline never merges or splits a
    URL.  A document that cannot be read makes the extractor raise. *)
Theorem docx_urls_are_those_of_the_paragraphs
    (docx_paragraphs : string -> result (list string)) path s :
  match docx_paragraphs path with
  | Returned ps =>
      extract_urls_from_docx docx_paragraphs path s
      = (Returned (⋃ (map (fun p => list_to_set (findall p)) ps)), s)
  | Raised e => extract_urls_from_docx docx_paragraphs path s = (Raised e, s)
  end.
Proof.
  unfold extract_urls_from_docx, bind, from_file, ret.
  destruct (docx_paragraphs path) as [ps|e]; [|done].
  rewrite findall_join_newline. do 2 f_equal.
  induction ps as [|p ps IH]; [done|].
  simpl. by rewrite list_to_set_app_L, IH.
Qed.

(** Pages of a PDF are concatenated with nothing in between, so a URL at
    the end of a page runs on into the text of the next one. *)
Example pdf_pages_run_together :
  extract_urls_from_pdf
    (fun _ => Returned [Some "see http://a.com/"%string; None; Some "next page"%string])
    "doc.pdf" []
  = (Returned {[ "http://a.com/next"%string ]}, []).
Proof. vm_compute. reflexivity. Qed.



Lemma response_code_listed z v :
  RESPONSE_CODES !! z = Some v ->
  (z, v) ∈ [ (100, "Continue"); (101, "Switching Protocols");
             (200, "OK"); (201, "Created"); (202, "Accepted"); (204, "No Content");
             (301, "Moved Permanently"); (302, "Found"); (304, "Not Modified");
             (400, "Bad Request"); (401, "Unauthorized"); (403, "Forbidden");
             (404, "Not Found");
             (500, "Internal Server Error"); (502, "Bad Gateway");
             (503, "Service Unavailable"); (504, "Gateway Timeout") ]%string.
Proof. apply elem_of_list_to_map_2. Qed.

Lemma response_comment_not_empty z :
  default "Unknown"%string (RESPONSE_CODES !! z) <> ""%string.
Proof.
  destruct (RESPONSE_CODES !! z) as [v|] eqn:E; [|done]. simpl.
  apply response_code_listed in E.
  repeat (apply elem_of_cons in E as [E|E]; [by injection E as -> ->|]).
  by apply elem_of_nil in E.
Qed.

Lemma py_or_code z :
  py_or (code_value (Some z)) (VStr "") = if z =? 0 then VStr "" else VInt z.
Proof. unfold py_or, code_value. cbn [truthy]. by destruct (z =? 0). Qed.

Lemma py_or_comment z :
  py_or (VStr (default "Unknown"%string (RESPONSE_CODES !! z))) (VStr "")
  = VStr (default "Unknown"%string (RESPONSE_CODES !! z)).
Proof.
  unfold py_or. cbn [truthy].
  pose proof (response_comment_not_empty z) as Hne.
  by destruct (String.eqb_spec (default "Unknown"%string (RESPONSE_CODES !! z)) "").
Qed.

Section ProcessFileFacts.

Variable session : nat -> string -> get_result.
Variable random : nat -> Q.

Hypothesis raises_Exceptions :
  forall n url e, session n url = GetRaises e -> is_Exception e = true.

(** One turn of the loop of [process_file]. *)
Lemma process_url url rows w :
  exists row w' k t,
    (lift_world (human_sleep random 1 3) ;;;
     r <- lift_world (check_url session random url 3) ;;
     writerow {| URL := url;
                 response_code := py_or (code_value (fst r)) (VStr "");
                 comment := py_or (VStr (snd r)) (VStr "") |}) (rows, w)
    = (Returned tt, (rows ++ [row], w'))
    /\ row_of_lookup session url (calls w) k row
    /\ calls w' = (calls w + k)%nat
    /\ trace w' = trace w ++ t
    /\ calls_in t = k.
Proof.
  set (w1 := World (calls w) (S (draws w))
                   (trace w ++ [EvSleep (1 + (3 - 1) * random (draws w))%Q])).
  assert (Hturn : forall v w2,
            check_url session random url 3 w1 = (Returned v, w2) ->
            (lift_world (human_sleep random 1 3) ;;;
             r <- lift_world (check_url session random url 3) ;;
             writerow {| URL := url;
                         response_code := py_or (code_value (fst r)) (VStr "");
                         comment := py_or (VStr (snd r)) (VStr "") |}) (rows, w)
            = (Returned tt,
               (rows ++ [ {| URL := url;
                             response_code := py_or (code_value (fst v)) (VStr "");
                             comment := py_or (VStr (snd v)) (VStr "") |} ], w2))).
  { intros v w2 E.
    unfold bind, lift_world, human_sleep, bind, random_uniform, sleep, emit, writerow.
    cbn [fst snd calls draws trace]. fold w1. by rewrite E. }
  destruct (check_url_run session random url 3 w1)
    as [[H E]|[(j & r & Hj & H & G & F & E)|(j & e & _ & _ & G & F & _)]].
  - eexists _, _, 3%nat, _. split; [exact (Hturn _ _ E)|].
    split; [|split; [done|split]].
    + split; [done|]. left. done.
    + unfold after_retries, w1. cbn [trace calls draws]. by rewrite <- app_assoc.
    + rewrite calls_in_app, calls_in_retries. done.
  - eexists _, _, (S j), _. split; [exact (Hturn _ _ E)|].
    split; [|split; [|split]].
    + split; [done|]. right. exists j, r. unfold success. cbn [fst snd response_code comment].
      rewrite py_or_code, py_or_comment. done.
    + unfold after_accept, w1. cbn [calls]. lia.
    + unfold after_accept, w1. cbn [trace calls draws]. by rewrite <- app_assoc.
    + rewrite !calls_in_app, calls_in_retries. simpl. lia.
  - apply raises_Exceptions in G. congruence.
Qed.

Lemma process_urls urls rows w :
  exists new w' t,
    for_each
      (fun url =>
         lift_world (human_sleep random 1 3) ;;;
         r <- lift_world (check_url session random url 3) ;;
         writerow {| URL := url;
                     response_code := py_or (code_value (fst r)) (VStr "");
                     comment := py_or (VStr (snd r)) (VStr "") |})
      urls (rows, w)
    = (Returned tt, (rows ++ new, w'))
    /\ rows_of_lookups session urls (calls w) new (calls w')
    /\ trace w' = trace w ++ t
    /\ calls w' = (calls w + calls_in t)%nat.
Proof.
  revert rows w. induction urls as [|url urls IH]; intros rows w.
  - exists [], w, []. simpl. rewrite !app_nil_r. repeat split. lia.
  - destruct (process_url url rows w) as (row & w1 & k & t1 & E1 & Hrow & Hc1 & Ht1 & Hk1).
    destruct (IH (rows ++ [row]) w1) as (new & w' & t' & E' & Hrows & Ht' & Hc').
    exists (row :: new), w', (t1 ++ t').
    split; [|split; [|split]].
    + cbn [for_each]. unfold bind at 1. rewrite E1, E'. by rewrite <- app_assoc.
    + exists k. split; [done|]. by rewrite <- Hc1.
    + by rewrite Ht', Ht1, app_assoc.
    + rewrite calls_in_app. lia.
Qed.

End ProcessFileFacts.

(** X6: as long as the session raises nothing but instances of
    [Exception], [process_file] writes one row for each URL of the file, in
    the order it goes through them.  The lookups follow one another in the
    calls of the session, three calls at most for each URL: the row of a
    URL whose three calls had to be retried has an empty code and the
    comment [Failed after retries], and the next URL is looked up all the
    same; the row of any other URL shows the status of the response to the
    last call made for it, but an empty code for status [0].  A file whose
    extension is not in [EXTRACTORS] (in any letter case) is passed over,
    and an exception of the extractor goes through before any row is
    written. *)
Theorem process_file_writes_a_row_for_every_url
    session random suffix run_extractor path rows w :
  (EXTRACTORS !! lower (suffix path) = None ->
   process_file session random suffix run_extractor path (rows, w)
   = (Returned tt, (rows, w)))
  /\ (forall extractor e,
        EXTRACTORS !! lower (suffix path) = Some extractor ->
        run_extractor extractor path = Raised e ->
        process_file session random suffix run_extractor path (rows, w)
        = (Raised e, (rows, w)))
  /\ (forall extractor urls,
        EXTRACTORS !! lower (suffix path) = Some extractor ->
        run_extractor extractor path = Returned urls ->
        (forall n url e, session n url = GetRaises e -> is_Exception e = true) ->
        exists new w' t,
          process_file session random suffix run_extractor path (rows, w)
          = (Returned tt, (rows ++ new, w'))
          /\ rows_of_lookups session urls (calls w) new (calls w')
          /\ trace w' = trace w ++ t
          /\ calls w' = (calls w + calls_in t)%nat).
Proof.
  unfold process_file. split; [|split].
  - by intros ->.
  - intros extractor e -> E. unfold bind at 1. by rewrite E.
  - intros extractor urls -> E Hs. unfold bind at 1. rewrite E.
    by apply process_urls.
Qed.

Lemma process_file_writes_a_row_for_every_url_witness :
  exists new w' t,
    process_file flaky_session (fun _ => 0%Q) (fun _ => ".TXT"%string)
                 (fun _ _ => Returned ["http://a.com"; "http://b.org/x"]%string)
                 "links.TXT" ([], w0)
    = (Returned tt, ([] ++ new, w'))
    /\ rows_of_lookups flaky_session ["http://a.com"; "http://b.org/x"]%string
                       (calls w0) new (calls w')
    /\ trace w' = trace w0 ++ t
    /\ calls w' = (calls w0 + calls_in t)%nat.
Proof.
  destruct (process_file_writes_a_row_for_every_url
              flaky_session (fun _ => 0%Q) (fun _ => ".TXT"%string)
              (fun _ _ => Returned ["http://a.com"; "http://b.org/x"]%string)
              "links.TXT" [] w0) as (_ & _ & H).
  apply (H from_txt); [vm_compute; reflexivity|reflexivity|].
  intros [|[|n]] url e; simpl; intros [= <-]; reflexivity.
Defined.

Lemma first_test_is_valid_source is_dir is_file c src :
  (if c && is_dir src then true else if negb c && is_file src then true else false)
  = valid_source is_dir is_file c src.
Proof. unfold valid_source. destruct c; simpl; by destruct (is_dir src), (is_file src). Qed.

(** X7: [validate_source] always ends, after reading at most five lines: it
    returns a path only if that path is a directory (when all files are to
    be checked) or a file (otherwise), the path being one the user typed,
    stripped; and when it exits, the exit code is 1. *)
Theorem validate_source_returns_only_a_valid_path input is_dir is_file check_all_files :
  exists e read printed,
    validate_source input is_dir is_file check_all_files = Some (e, read, printed)
    /\ (read <= 5)%nat
    /\ match e with
       | Return p =>
           valid_source is_dir is_file check_all_files p = true
           /\ exists n, (n < read)%nat /\ p = strip (input n)
       | Exit code => code = 1
       end.
Proof.
  unfold validate_source. simpl.
  repeat match goal with
  | |- context [if ?c && is_dir ?s then _ else _] =>
      let V := fresh "V" in
      pose proof (first_test_is_valid_source is_dir is_file c s) as V;
      destruct (c && is_dir s) eqn:?; [|destruct (negb c && is_file s) eqn:?]
  | |- context [if ?b then _ else _] => destruct b eqn:?
  end;
  eexists _, _, _; (split; [reflexivity|]); (split; [lia|]); try done;
  (split; [done|]); eexists; (split; [|reflexivity]); lia.
Qed.

(** X8: after the first or the second invalid path, answering no to
    [Try again?] ends the script at once with code 1; after three invalid
    paths it ends with code 1 without asking again, five lines having been
    read. *)
Theorem validate_source_gives_up input is_dir is_file check_all_files :
  valid_source is_dir is_file check_all_files (strip (input 0%nat)) = false ->
  (says_no (input 1%nat) = true ->
   validate_source input is_dir is_file check_all_files
   = Some (Exit 1, 2%nat, [InvalidPath 2; Exiting]))
  /\ (says_no (input 1%nat) = false ->
      valid_source is_dir is_file check_all_files (strip (input 2%nat)) = false ->
      says_no (input 3%nat) = true ->
      validate_source input is_dir is_file check_all_files
      = Some (Exit 1, 4%nat, [InvalidPath 2; InvalidPath 1; Exiting]))
  /\ (says_no (input 1%nat) = false ->
      valid_source is_dir is_file check_all_files (strip (input 2%nat)) = false ->
      says_no (input 3%nat) = false ->
      valid_source is_dir is_file check_all_files (strip (input 4%nat)) = false ->
      validate_source input is_dir is_file check_all_files
      = Some (Exit 1, 5%nat,
              [InvalidPath 2; InvalidPath 1; InvalidPath 0; ReachedInvalidAttempts 3])).
Proof.
  assert (T : forall s,
            valid_source is_dir is_file check_all_files s = false ->
            check_all_files && is_dir s = false
            /\ negb check_all_files && is_file s = false).
  { intros s. unfold valid_source. destruct check_all_files; simpl; intros ->; done. }
  intros V0. apply T in V0 as [A0 B0].
  unfold validate_source, says_no. split; [|split].
  - intros N1. simpl. by rewrite A0, B0, N1.
  - intros N1 [A2 B2]%T N3. simpl.
    by rewrite A0, B0, N1, A2, B2, N3.
  - intros N1 [A2 B2]%T N3 [A4 B4]%T. simpl.
    by rewrite A0, B0, N1, A2, B2, N3, A4, B4.
Qed.

Lemma validate_source_gives_up_witness :
  validate_source (fun n => match n with 0%nat => "/nowhere" | _ => "  No " end)%string
                  (fun _ => false) (fun _ => false) true
  = Some (Exit 1, 2%nat, [InvalidPath 2; Exiting])
  /\ validate_source
       (fun n => match n with
                 | 0%nat => "/nowhere" | 1%nat => "y" | 2%nat => "/nowhere/else"
                 | _ => "n"
                 end)%string
       (fun _ => false) (fun _ => false) false
     = Some (Exit 1, 4%nat, [InvalidPath 2; InvalidPath 1; Exiting]).
Proof.
  split.
  - apply (validate_source_gives_up
             (fun n => match n with 0%nat => "/nowhere" | _ => "  No " end)%string
             (fun _ => false) (fun _ => false) true);
      reflexivity.
  - destruct (validate_source_gives_up
                (fun n => match n with
                          | 0%nat => "/nowhere" | 1%nat => "y" | 2%nat => "/nowhere/else"
                          | _ => "n"
                          end)%string
                (fun _ => false) (fun _ => false) false) as (_ & H & _);
      [reflexivity|].
    apply H; reflexivity.
Defined.

Lemma map_headers_from_lookup idx cells (h : gmap string Z) k :
  map_headers_from idx cells h !! k
  = match last_header k cells with
    | Some j => Some (idx + Z.of_nat j)
    | None => h !! k
    end.
Proof.
  revert idx h. induction cells as [|v cells IH]; intros idx h; [done|].
  simpl. rewrite IH. destruct (last_header k cells) as [j|]; [f_equal; lia|].
  unfold is_header. destruct v as [|b|z|s]; [done| | |];
    match goal with
    | |- context [header_of ?v] =>
        destruct (String.eqb_spec (header_of v) k) as [<-|Hne];
        [rewrite lookup_insert_eq; f_equal; lia | by rewrite lookup_insert_ne]
    end.
Qed.

Lemma last_header_Some k cells j :
  last_header k cells = Some j ->
  (exists v, cells !! j = Some v /\ is_header k v = true)
  /\ (forall j' v', (j < j')%nat -> cells !! j' = Some v' -> is_header k v' = false).
Proof.
  revert j. induction cells as [|v cells IH]; intros j; [done|]. simpl.
  destruct (last_header k cells) as [i|] eqn:L.
  - intros [= <-]. destruct (IH i eq_refl) as [Hv Hlast]. split; [done|].
    intros [|j'] v' Hj; [lia|]. simpl. apply Hlast. lia.
  - destruct (is_header k v) eqn:Hk; [|done]. intros [= <-]. split; [by exists v|].
    intros [|j'] v' Hj; [lia|]. simpl. clear Hj IH. revert j'.
    induction cells as [|u cells IHc]; intros j' Hj'; [done|].
    simpl in L. destruct (last_header k cells) eqn:L'; [done|].
    destruct (is_header k u) eqn:Hu; [done|].
    destruct j' as [|j']; simpl in Hj'; [by injection Hj' as <-|]. by eapply IHc.
Qed.

Lemma last_header_None k cells :
  last_header k cells = None <-> Forall (fun v => is_header k v = false) cells.
Proof.
  induction cells as [|v cells IH]; simpl; [by split; [constructor|]|].
  rewrite Forall_cons, <- IH.
  destruct (last_header k cells); [by split; [|intros [_ ?]]|].
  destruct (is_header k v); split; try done. by intros [? _].
Qed.

Lemma required_columns_Some row1 cz ca :
  required_columns (map_headers row1) = Some (cz, ca)
  <-> exists i j,
        last_header "zip" row1 = Some i /\ last_header "full_address" row1 = Some j
        /\ cz = 1 + Z.of_nat i /\ ca = 1 + Z.of_nat j.
Proof.
  unfold required_columns, map_headers. rewrite !map_headers_from_lookup, !lookup_empty.
  destruct (last_header "zip" row1) as [i|], (last_header "full_address" row1) as [j|];
    simpl.
  - destruct (Z.eqb_spec (1 + Z.of_nat i) 0); [lia|].
    destruct (Z.eqb_spec (1 + Z.of_nat j) 0); [lia|]. simpl.
    split.
    + intros [= <- <-]. by exists i, j.
    + intros (i' & j' & [= <-] & [= <-] & -> & ->). done.
  - split; [by destruct (1 + Z.of_nat i =? 0)|]. by intros (? & ? & ? & ? & ?).
  - split; [done|]. by intros (? & ? & ? & ? & ?).
  - split; [done|]. by intros (? & ? & ? & ? & ?).
Qed.

Lemma required_columns_distinct row1 cz ca :
  required_columns (map_headers row1) = Some (cz, ca) -> cz <> ca.
Proof.
  intros (i & j & Li & Lj & -> & ->)%required_columns_Some.
  destruct (last_header_Some _ _ _ Li) as [(vi & Hi & Zi) _].
  destruct (last_header_Some _ _ _ Lj) as [(vj & Hj & Aj) _].
  intros E. assert (i = j) as -> by lia.
  rewrite Hi in Hj. injection Hj as <-.
  unfold is_header in *. destruct vi; try done;
    apply String.eqb_eq in Zi, Aj; congruence.
Qed.

(** X9: when the script finds its two columns, each is the column of the
    last cell of the first row whose text, stripped and lower-cased, is
    [zip], respectively [full_address]; the two columns are different and
    lie within the row. *)
Theorem required_columns_are_the_last_headers row1 col_zip col_address :
  required_columns (map_headers row1) = Some (col_zip, col_address) ->
  col_zip <> col_address
  /\ 1 <= col_zip <= Z.of_nat (length row1)
  /\ 1 <= col_address <= Z.of_nat (length row1)
  /\ (exists v, row1 !! Z.to_nat (col_zip - 1) = Some v /\ is_header "zip" v = true)
  /\ (exists v, row1 !! Z.to_nat (col_address - 1) = Some v
                /\ is_header "full_address" v = true)
  /\ (forall n v, col_zip - 1 < Z.of_nat n -> row1 !! n = Some v ->
                  is_header "zip" v = false)
  /\ (forall n v, col_address - 1 < Z.of_nat n -> row1 !! n = Some v ->
                  is_header "full_address" v = false).
Proof.
  intros (i & j & Li & Lj & -> & ->)%required_columns_Some.
  destruct (last_header_Some _ _ _ Li) as [(vi & Hi & Zi) Lasti].
  destruct (last_header_Some _ _ _ Lj) as [(vj & Hj & Aj) Lastj].
  pose proof (lookup_lt_Some _ _ _ Hi). pose proof (lookup_lt_Some _ _ _ Hj).
  replace (Z.to_nat (1 + Z.of_nat i - 1)) with i by lia.
  replace (Z.to_nat (1 + Z.of_nat j - 1)) with j by lia.
  split; [|split; [lia|split; [lia|split; [by eauto|split; [by eauto|split]]]]].
  - apply (required_columns_distinct row1). apply required_columns_Some. by exists i, j.
  - intros n v Hn. apply Lasti. lia.
  - intros n v Hn. apply Lastj. lia.
Qed.

Lemma required_columns_are_the_last_headers_witness :
  required_columns (map_headers [VStr "Name"; VStr " ZIP "; VNone; VStr "Full_Address"; VStr "zip"])
  = Some (5, 4) /\ 5 <> 4.
Proof.
  split; [reflexivity|].
  apply (required_columns_are_the_last_headers
           [VStr "Name"; VStr " ZIP "; VNone; VStr "Full_Address"; VStr "zip"] 5 4).
  reflexivity.
Defined.

(** X10: the script stops for want of its columns exactly when no cell of
    the first row is a header named [zip], or none is one named
    [full_address]; an empty cell is never a header, whatever the name. *)
Theorem required_columns_missing row1 :
  required_columns (map_headers row1) = None
  <-> Forall (fun v => is_header "zip" v = false) row1
      \/ Forall (fun v => is_header "full_address" v = false) row1.
Proof.
  rewrite <- !last_header_None.
  destruct (required_columns (map_headers row1)) as [[cz ca]|] eqn:E.
  - apply required_columns_Some in E as (i & j & Li & Lj & _). rewrite Li, Lj.
    split; [done|]. by intros [?|?].
  - split; [|done]. intros _.
    destruct (last_header "zip" row1) as [i|] eqn:Li; [|by left].
    destruct (last_header "full_address" row1) as [j|] eqn:Lj; [|by right].
    assert (required_columns (map_headers row1)
            = Some (1 + Z.of_nat i, 1 + Z.of_nat j)) as E'.
    { apply required_columns_Some. by exists i, j. }
    congruence.
Qed.

Lemma rev_app_spec (a b : string) : String.rev_app a b = String.rev a +:+ b.
Proof.
  unfold String.rev. revert b. induction a as [|x a IH]; intros b; [done|].
  simpl. rewrite (IH (String x "")), IH, app_assoc_s. done.
Qed.

Lemma rev_cons_s x (a : string) : String.rev (String x a) = String.rev a +:+ String x "".
Proof. unfold String.rev at 1. simpl. apply rev_app_spec. Qed.

Lemma rev_app_distr_s (a b : string) :
  String.rev (a +:+ b) = String.rev b +:+ String.rev a.
Proof.
  induction a as [|x a IH].
  - by rewrite app_nil_l_s, app_nil_r_s.
  - by rewrite app_cons_s, !rev_cons_s, IH, app_assoc_s.
Qed.

Lemma rev_involutive_s (a : string) : String.rev (String.rev a) = a.
Proof.
  induction a as [|x a IH]; [done|].
  by rewrite rev_cons_s, rev_app_distr_s, IH.
Qed.

Lemma lstrip_split (s : string) : exists pre, s = pre +:+ lstrip s.
Proof.
  induction s as [|c s [pre E]]; [by exists ""%string|]. simpl.
  destruct (is_space c).
  - exists (String c pre). by rewrite app_cons_s, <- E.
  - by exists ""%string.
Qed.

Lemma lstrip_starts_clean (s : string) : starts_clean (lstrip s) = true.
Proof.
  induction s as [|c s IH]; [done|]. simpl.
  destruct (is_space c) eqn:E; [done|]. simpl. by rewrite E.
Qed.

Lemma lstrip_clean (t : string) : starts_clean t = true -> lstrip t = t.
Proof. destruct t as [|c t]; [done|]. simpl. by destruct (is_space c). Qed.

Lemma starts_clean_prefix (a b : string) :
  starts_clean (a +:+ b) = true -> starts_clean a = true.
Proof. by destruct a. Qed.

(** [strip] leaves no white space at either end, changes nothing in a
    string that has none there, and so does nothing the second time. *)
Lemma strip_strips (s : string) :
  stripped (strip s) = true
  /\ (stripped s = true -> strip s = s)
  /\ strip (strip s) = strip s.
Proof.
  assert (Hfix : forall t, stripped t = true -> strip t = t).
  { intros t [H1 H2]%andb_true_iff. unfold strip.
    by rewrite (lstrip_clean t), (lstrip_clean (String.rev t)), rev_involutive_s. }
  assert (Hs : stripped (strip s) = true).
  { unfold stripped, strip. apply andb_true_iff. split.
    - destruct (lstrip_split (String.rev (lstrip s))) as [pre E].
      apply (f_equal String.rev) in E.
      rewrite rev_involutive_s, rev_app_distr_s in E.
      apply (starts_clean_prefix _ (String.rev pre)). rewrite <- E.
      apply lstrip_starts_clean.
    - rewrite rev_involutive_s. apply lstrip_starts_clean. }
  split; [done|]. split; [apply Hfix|by apply Hfix].
Qed.

Lemma ws_cell_trim_cells ws r c :
  ws_cell (trim_cells ws) r c
  = if (2 <=? r) && (r <=? max_row ws) then trim_cell (ws_cell ws r c) else ws_cell ws r c.
Proof.
  unfold ws_cell, trim_cells. simpl. rewrite map_lookup_imap.
  destruct (cells ws !! (r, c)) as [x|]; simpl; [done|].
  by destruct ((2 <=? r) && (r <=? max_row ws)).
Qed.

Lemma trim_cell_idemp c : trim_cell (trim_cell c) = trim_cell c.
Proof.
  unfold trim_cell. destruct c as [[| | |s] f]; simpl; try done.
  f_equal. f_equal. apply strip_strips.
Qed.

(** X11: the trimming pass strips the text cells of the rows from 2 to
    [max_row] and nothing else: the first row, the cells that hold no text
    and all fills stay as they are; afterwards no text cell of those rows
    starts or ends with white space, and a second pass would change
    nothing. *)
Theorem trim_cells_strips_the_text_below_the_header ws :
  max_row (trim_cells ws) = max_row ws
  /\ (forall r c,
        fill (ws_cell (trim_cells ws) r c) = fill (ws_cell ws r c)
        /\ (r < 2 \/ max_row ws < r -> ws_cell (trim_cells ws) r c = ws_cell ws r c)
        /\ ((forall s, value (ws_cell ws r c) <> VStr s) ->
            ws_cell (trim_cells ws) r c = ws_cell ws r c)
        /\ (forall s, 2 <= r <= max_row ws -> value (ws_cell ws r c) = VStr s ->
                      value (ws_cell (trim_cells ws) r c) = VStr (strip s))
        /\ (forall s, 2 <= r <= max_row ws ->
                      value (ws_cell (trim_cells ws) r c) = VStr s -> stripped s = true))
  /\ trim_cells (trim_cells ws) = trim_cells ws.
Proof.
  split; [done|]. split.
  - intros r c. rewrite ws_cell_trim_cells.
    destruct (Z.leb_spec 2 r), (Z.leb_spec r (max_row ws)); simpl;
      try (repeat split; try done; intros; lia).
    unfold trim_cell. destruct (ws_cell ws r c) as [[| | |t] f]; simpl;
      repeat split; try done; try (intros; lia).
    + intros Hs. by destruct (Hs t).
    + by intros s _ [= ->].
    + intros s _ [= <-]. apply strip_strips.
  - unfold trim_cells. simpl. f_equal. apply map_eq. intros [r c].
    rewrite !map_lookup_imap.
    destruct (cells ws !! (r, c)) as [x|]; simpl; [|done].
    destruct ((2 <=? r) && (r <=? max_row ws)); [|done].
    by rewrite trim_cell_idemp.
Qed.

(** X12: with no attempt allowed ([max_retries] zero or negative) neither
    lookup calls its transport or sleeps: [check_url] returns its failure
    pair at once, [lookup_postcode] logs the error record and returns the
    empty string. *)
Theorem no_attempt_allowed_means_no_call
    session geolocator random url address max_retries w :
  max_retries <= 0 ->
  check_url session random url max_retries w
  = (Returned (None, "Failed after retries"%string), w)
  /\ lookup_postcode geolocator address max_retries w
     = (Returned ""%string,
        World (calls w) (draws w) (trace w ++ [EvLog ERROR (MsgAllRetriesFailed address)])).
Proof.
  intros H. unfold check_url, lookup_postcode, range.
  replace (Z.to_nat (max_retries + 1 - 1)) with O by lia.
  split; [by destruct w|done].
Qed.

Lemma no_attempt_allowed_means_no_call_witness :
  check_url flaky_session (fun _ => 0%Q) "http://example.com" 0 w0
  = (Returned (None, "Failed after retries"%string), w0).
Proof.
  apply (no_attempt_allowed_means_no_call
           flaky_session flaky_geocoder (fun _ => 0%Q) "http://example.com"
           (VStr "123 Main St") 0 w0).
  lia.
Defined.

(** X13: the comment [check_url] returns is never [Service Unavailable]:
    the entry of [RESPONSE_CODES] for 503 cannot be reached, since a 503 is
    always retried. *)
Theorem check_url_never_reports_service_unavailable
    session random url max_retries w code comment w' :
  check_url session random url max_retries w = (Returned (code, comment), w') ->
  comment <> "Service Unavailable"%string.
Proof.
  intros E.
  destruct (check_url_run session random url max_retries w)
    as [[_ E2]|[(k & r & _ & _ & _ & F & E2)|(k & e & _ & _ & _ & _ & E2)]];
    rewrite E in E2; apply (f_equal fst) in E2; cbn [fst] in E2; [| |discriminate E2].
  { assert (Hv : comment = "Failed after retries"%string) by congruence. by subst comment. }
  unfold success in E2.
  assert (Hv : comment = default "Unknown"%string (RESPONSE_CODES !! status_code r))
    by congruence.
  clear E2. subst comment.
  intros C.
  destruct (RESPONSE_CODES !! status_code r) as [v|] eqn:L; [|done].
  simpl in C. subst v. apply response_code_listed in L.
  assert (S503 : status_code r = 503).
  { repeat (apply elem_of_cons in L as [L|L]; [by injection L|]).
    by apply elem_of_nil in L. }
  unfold soft_failure in F. rewrite S503 in F. done.
Qed.

Lemma check_url_never_reports_service_unavailable_witness :
  "OK"%string <> "Service Unavailable"%string.
Proof.
  apply (check_url_never_reports_service_unavailable
           flaky_session (fun _ => 0%Q) "http://example.com" 3 w0 (Some 200) "OK"%string
           (snd (check_url flaky_session (fun _ => 0%Q) "http://example.com" 3 w0))).
  reflexivity.
Defined.

Lemma lookup_provenance geolocator address retries w postcode w' :
  lookup_postcode geolocator address retries w = (Returned postcode, w') ->
  postcode <> ""%string ->
  exists k loc,
    (k < Z.to_nat retries)%nat
    /\ (forall i, (i < k)%nat -> transient (geolocator (calls w + i)%nat address) = true)
    /\ geolocator (calls w + k)%nat address = GeoReturns loc
    /\ postcode_field loc = Some postcode.
Proof.
  intros E Hne.
  destruct (first_non_transient geolocator address (Z.to_nat retries) w)
    as [H|(k & Hk & H & T)].
  - rewrite lookup_exhausted in E by done. by injection E as <- _.
  - destruct (geolocator (calls w + k)%nat address) as [loc|e] eqn:G.
    + rewrite (lookup_returns _ _ _ k loc) in E by done. injection E as <- _.
      exists k, loc. repeat split; try done.
      unfold answer in *. by destruct (postcode_field loc).
    + rewrite (lookup_propagates _ _ _ k e) in E by done. discriminate E.
Qed.

(** X14: a postcode [lookup_postcode] returns is the postcode field of the
    answer to one of its calls: it never makes one up, and a non-empty
    result means a call completed. *)
Theorem lookup_postcode_returns_a_postcode_of_the_geocoder
    geolocator address retries w postcode w' :
  lookup_postcode geolocator address retries w = (Returned postcode, w') ->
  postcode <> ""%string ->
  exists k loc,
    (k < Z.to_nat retries)%nat
    /\ (forall i, (i < k)%nat -> transient (geolocator (calls w + i)%nat address) = true)
    /\ geolocator (calls w + k)%nat address = GeoReturns loc
    /\ postcode_field loc = Some postcode.
Proof. apply lookup_provenance. Qed.

Lemma lookup_postcode_returns_a_postcode_of_the_geocoder_witness :
  exists k loc,
    (k < 3)%nat /\ flaky_geocoder k (VStr "123 Main St") = GeoReturns loc
    /\ postcode_field loc = Some "02134"%string.
Proof.
  destruct (lookup_postcode_returns_a_postcode_of_the_geocoder
              flaky_geocoder (VStr "123 Main St") 3 w0 "02134"%string
              (snd (lookup_postcode flaky_geocoder (VStr "123 Main St") 3 w0))
              eq_refl)
    as (k & loc & Hk & _ & G & P); [discriminate|].
  exists k, loc. repeat split; done.
Defined.

(** The same, with the number of the call that answered. *)
Lemma lookup_provenance_at geolocator address retries w postcode w' :
  lookup_postcode geolocator address retries w = (Returned postcode, w') ->
  postcode <> ""%string ->
  exists k loc,
    calls w' = S (calls w + k)
    /\ geolocator (calls w + k)%nat address = GeoReturns loc
    /\ postcode_field loc = Some postcode.
Proof.
  intros E Hne.
  destruct (first_non_transient geolocator address (Z.to_nat retries) w)
    as [H|(k & Hk & H & T)].
  - rewrite lookup_exhausted in E by done. by injection E as <- _.
  - destruct (geolocator (calls w + k)%nat address) as [loc|e] eqn:G.
    + rewrite (lookup_returns _ _ _ k loc) in E by done. injection E as <- <-.
      exists k, loc. repeat split; try done.
      unfold answer in *. by destruct (postcode_field loc).
    + rewrite (lookup_propagates _ _ _ k e) in E by done. discriminate E.
Qed.

(** The count of calls never goes down. *)
Lemma lookup_calls_mono geolocator address retries w :
  (calls w <= calls (snd (lookup_postcode geolocator address retries w)))%nat.
Proof.
  destruct (first_non_transient geolocator address (Z.to_nat retries) w)
    as [H|(k & Hk & H & T)].
  - rewrite lookup_exhausted by done. simpl. lia.
  - destruct (geolocator (calls w + k)%nat address) as [loc|e] eqn:G.
    + rewrite (lookup_returns _ _ _ k loc) by done. simpl. lia.
    + simpl in T. rewrite (lookup_propagates _ _ _ k e) by done. simpl. lia.
Qed.

Lemma NoDup_range_from lo n : NoDup (range_from lo n).
Proof.
  revert lo. induction n as [|n IH]; intros lo; simpl; constructor; [|apply IH].
  intros Hin. pose proof (range_from_lower (lo + 1) n) as Hl.
  rewrite Forall_forall in Hl. apply Hl in Hin. lia.
Qed.

Section FillWrites.

Variable geolocator : nat -> py_value -> geocode_result.
Variable random : nat -> Q.
Variables col_zip col_address : Z.

Local Abbreviation fill_row := (ZipcodeFinder.fill_row geolocator random col_zip col_address).

(** What a cell holds when it was written for the address of row [r] of the
    sheet [ws] by a call numbered from [c] up to, not including, [c']. *)
Local Abbreviation written_from ws r c c' cell :=
  (exists postcode n loc,
     postcode <> ""%string
     /\ cell = Cell (VStr postcode) yellow_fill
     /\ (c <= n < c')%nat
     /\ geolocator n (py_or (value (ws_cell ws r col_address)) (VStr "")) = GeoReturns loc
     /\ postcode_field loc = Some postcode).

Lemma fill_row_calls row s :
  (calls (snd s) <= calls (snd (snd (fill_row row s))))%nat.
Proof.
  unfold ZipcodeFinder.fill_row, bind, get_cell. simpl.
  destruct (zip_is_blank (value (ws_cell (fst s) row col_zip))); [|done].
  set (address := py_or _ _).
  pose proof (lookup_calls_mono geolocator address 3 (snd s)) as Hm.
  unfold lift, set_cell, log, sleep, emit, random_uniform, ret.
  destruct (lookup_postcode geolocator address 3 (snd s)) as [[postcode|e] w1];
    simpl in *; [|done].
  by destruct (negb (String.eqb postcode "")).
Qed.

Lemma for_each_calls (l : list Z) s :
  (calls (snd s) <= calls (snd (snd (for_each fill_row l s))))%nat.
Proof.
  revert s. induction l as [|row l IH]; intros s; [done|].
  simpl. unfold bind.
  pose proof (fill_row_calls row s) as H1.
  destruct (fill_row row s) as [[[]|e] s1]; simpl in *; [|done].
  specialize (IH s1). lia.
Qed.

Lemma fill_row_written row s r c :
  ws_cell (fst (snd (fill_row row s))) r c <> ws_cell (fst s) r c ->
  r = row
  /\ written_from (fst s) row (calls (snd s)) (calls (snd (snd (fill_row row s))))
                  (ws_cell (fst (snd (fill_row row s))) r c).
Proof.
  unfold ZipcodeFinder.fill_row, bind, get_cell. simpl.
  destruct (zip_is_blank (value (ws_cell (fst s) row col_zip))); [|done].
  set (address := py_or _ _).
  unfold lift, set_cell, log, sleep, emit, random_uniform, ret.
  destruct (lookup_postcode geolocator address 3 (snd s)) as [[postcode|e] w1] eqn:L;
    [|done].
  simpl. destruct (String.eqb_spec postcode "") as [->|Hne]; simpl; [done|].
  destruct s as [[m cs] w]. simpl in *. rewrite !ws_cell_insert.
  case_decide as D; [|done]. intros _. injection D as <- <-. split; [done|].
  destruct (lookup_provenance_at _ _ _ _ _ _ L Hne) as (k & loc & Hc & G & P).
  exists postcode, (calls w + k)%nat, loc. repeat split; try done; lia.
Qed.

Lemma for_each_written (l : list Z) s r c :
  NoDup l ->
  ws_cell (fst (snd (for_each fill_row l s))) r c <> ws_cell (fst s) r c ->
  written_from (fst s) r (calls (snd s)) (calls (snd (snd (for_each fill_row l s))))
               (ws_cell (fst (snd (for_each fill_row l s))) r c).
Proof.
  revert s. induction l as [|row l IH]; intros s Hnd; [done|].
  apply NoDup_cons in Hnd as [Hrow Hnd].
  simpl. unfold bind.
  pose proof (fill_row_written row s r c) as Hw.
  pose proof (fill_row_calls row s) as Hc1.
  destruct (fill_row_effect geolocator random col_zip col_address row s)
    as (_ & _ & Hf1 & _).
  destruct (fill_row row s) as [[[]|e] s1]; simpl in *.
  2:{ intros H. destruct (Hw H) as (-> & Hwr). exact Hwr. }
  pose proof (for_each_calls l s1) as Hc2.
  destruct (for_each_effect geolocator random col_zip col_address l s1)
    as (_ & _ & Hf2 & _).
  intros H.
  destruct (decide (ws_cell (fst (snd (for_each fill_row l s1))) r c = ws_cell (fst s1) r c))
    as [Eq|Ne].
  - rewrite Eq in *. destruct (Hw H) as (-> & postcode & n & loc & ? & ? & ? & ? & ?).
    exists postcode, n, loc. repeat split; try done; lia.
  - destruct (IH s1 Hnd Ne) as (postcode & n & loc & ? & ? & ? & G & ?).
    destruct (Hf2 _ _ Ne) as (_ & Hin & _).
    assert (Hsame : ws_cell (fst s1) r col_address = ws_cell (fst s) r col_address).
    { destruct (decide (ws_cell (fst s1) r col_address = ws_cell (fst s) r col_address))
        as [|Ne']; [done|].
      destruct (Hf1 _ _ Ne') as (-> & _). done. }
    rewrite Hsame in G.
    exists postcode, n, loc. repeat split; try done; lia.
Qed.

End FillWrites.

(** X15: whatever the pass over the rows writes is a postcode the geocoder
    returned, during the pass, for the address of that row: a cell that
    differs from what it was holds, with the yellow fill, a postcode that is
    not empty and is the postcode field of the answer to a call the pass
    made with the address of the row as the sheet had it. *)
Theorem fill_pass_writes_only_geocoder_postcodes
    geolocator random col_zip col_address ws w row column :
  let run := fill_blank_zips geolocator random col_zip col_address (ws, w) in
  let ws' := fst (snd run) in
  let w' := snd (snd run) in
  ws_cell ws' row column <> ws_cell ws row column ->
  exists postcode n loc,
    postcode <> ""%string
    /\ ws_cell ws' row column = Cell (VStr postcode) yellow_fill
    /\ (calls w <= n < calls w')%nat
    /\ geolocator n (py_or (value (ws_cell ws row col_address)) (VStr ""))
       = GeoReturns loc
    /\ postcode_field loc = Some postcode.
Proof.
  cbv zeta. unfold fill_blank_zips. simpl. intros H.
  apply (for_each_written geolocator random col_zip col_address _ (ws, w));
    [apply NoDup_range_from|done].
Qed.

Lemma fill_pass_writes_only_geocoder_postcodes_witness :
  exists postcode n loc,
    postcode <> ""%string
    /\ ws_cell (fst (snd (fill_blank_zips flaky_geocoder (fun _ => 0%Q) 2 1
                                          (sample_sheet, w0)))) 2 2
       = Cell (VStr postcode) yellow_fill
    /\ (calls w0 <= n
        < calls (snd (snd (fill_blank_zips flaky_geocoder (fun _ => 0%Q) 2 1
                                           (sample_sheet, w0)))))%nat
    /\ flaky_geocoder n (py_or (value (ws_cell sample_sheet 2 1)) (VStr ""))
       = GeoReturns loc
    /\ postcode_field loc = Some postcode.
Proof.
  apply (fill_pass_writes_only_geocoder_postcodes
           flaky_geocoder (fun _ => 0%Q) 2 1 sample_sheet w0 2 2).
  vm_compute. discriminate.
Defined.

Lemma for_each_skips geolocator random col_zip col_address (l : list Z) s :
  Forall (fun r => zip_is_blank (value (ws_cell (fst s) r col_zip)) = false) l ->
  for_each (fill_row geolocator random col_zip col_address) l s = (Returned tt, s).
Proof.
  induction 1 as [|r l Hr Hl IH]; [done|].
  simpl. unfold bind. by rewrite fill_row_skips.
Qed.

Lemma for_each_app {S I} (body : I -> M S unit) (l1 l2 : list I) s :
  for_each body (l1 ++ l2) s
  = match for_each body l1 s with
    | (Returned _, s') => for_each body l2 s'
    | (Raised e, s') => (Raised e, s')
    end.
Proof.
  revert s. induction l1 as [|i l1 IH]; intros s; [done|].
  simpl. unfold bind. destruct (body i s) as [[[]|e] s1]; [apply IH|done].
Qed.

(** X16: when the two passes return, every cell that is not a zip cell the
    test of the loop takes for blank (a falsy value, so also 0 and [False],
    or white space only) in a row from 2 to [max_row] is the cell of the
    sheet as it was, trimmed; so a zip whose value is truthy and not white
    space only is kept, up to the white space around it. *)
Theorem fill_and_trim_keeps_the_rest_of_the_sheet
    geolocator random col_zip col_address ws w ws' w' row column :
  fill_and_trim geolocator random col_zip col_address (ws, w) = (Returned tt, (ws', w')) ->
  column <> col_zip \/ row < 2 \/ max_row ws < row
  \/ (truthy (value (ws_cell ws row col_zip)) = true
      /\ strip (str (value (ws_cell ws row col_zip))) <> ""%string) ->
  ws_cell ws' row column = ws_cell (trim_cells ws) row column.
Proof.
  unfold fill_and_trim, bind, fill_blank_zips. simpl. intros E Hcell.
  destruct (for_each_effect geolocator random col_zip col_address
              (range 2 (max_row ws + 1)) (ws, w)) as (t & Hm & Hf & _ & _).
  destruct (for_each (fill_row geolocator random col_zip col_address)
              (range 2 (max_row ws + 1)) (ws, w)) as [[[]|e] [ws1 w1]]; [|done].
  injection E as <- <-. simpl in *.
  assert (Hsame : ws_cell ws1 row column = ws_cell ws row column).
  { destruct (decide (ws_cell ws1 row column = ws_cell ws row column)) as [|Ne]; [done|].
    destruct (Hf _ _ Ne) as (-> & Hin%elem_of_range & B).
    unfold blank_row in B.
    destruct Hcell as [?|[?|[?|[T N]]]]; [done|lia|lia|].
    rewrite zip_is_blank_false in B by done. done. }
  by rewrite !ws_cell_trim_cells, Hm, Hsame.
Qed.

Lemma fill_and_trim_keeps_the_rest_of_the_sheet_witness :
  ws_cell (fst (snd (fill_and_trim flaky_geocoder (fun _ => 0%Q) 2 1 (sample_sheet, w0)))) 3 2
  = Cell (VInt 90210) no_fill.
Proof.
  apply (fill_and_trim_keeps_the_rest_of_the_sheet
           flaky_geocoder (fun _ => 0%Q) 2 1 sample_sheet w0 _
           (snd (snd (fill_and_trim flaky_geocoder (fun _ => 0%Q) 2 1 (sample_sheet, w0))))
           3 2).
  - vm_compute. reflexivity.
  - right. right. right. split; [reflexivity|vm_compute; discriminate].
Defined.

(** X17: an exception of the geocoder that [lookup_postcode] does not catch
    ends the whole pass: when the rows before [row] have a zip, [row] has
    none and the first call for it raises such an exception, the passes
    raise it, with the sheet as it was and nothing trimmed. *)
Theorem fill_and_trim_stops_at_an_uncaught_exception
    geolocator random col_zip col_address ws w row e :
  2 <= row <= max_row ws ->
  (forall r, 2 <= r < row -> zip_is_blank (value (ws_cell ws r col_zip)) = false) ->
  zip_is_blank (value (ws_cell ws row col_zip)) = true ->
  geolocator (calls w) (py_or (value (ws_cell ws row col_address)) (VStr ""))
  = GeoRaises e ->
  caught e = false ->
  fill_and_trim geolocator random col_zip col_address (ws, w)
  = (Raised e,
     (ws, World (S (calls w)) (draws w)
                (trace w ++ [EvGeocode (py_or (value (ws_cell ws row col_address))
                                              (VStr ""))]))).
Proof.
  intros Hrow Hbefore Hblank G C.
  unfold fill_and_trim, bind, fill_blank_zips. simpl.
  assert (Hsplit : range 2 (max_row ws + 1)
                   = range_from 2 (Z.to_nat (row - 2))
                     ++ row :: range_from (row + 1) (Z.to_nat (max_row ws - row))).
  { unfold range.
    replace (Z.to_nat (max_row ws + 1 - 2))
      with (Z.to_nat (row - 2) + S (Z.to_nat (max_row ws - row)))%nat by lia.
    rewrite range_from_app. simpl. do 2 f_equal; [lia|f_equal; lia]. }
  rewrite Hsplit, for_each_app, for_each_skips.
  2:{ apply Forall_forall. intros r Hr. simpl. apply Hbefore.
      apply list_elem_of_lookup in Hr as [i Hi].
      pose proof (lookup_lt_Some _ _ _ Hi) as Hlt. rewrite range_from_length in Hlt.
      apply range_from_lookup in Hi. lia. }
  simpl. unfold bind at 1.
  unfold ZipcodeFinder.fill_row at 1. unfold bind, get_cell. simpl. rewrite Hblank.
  unfold lift. simpl.
  assert (Hprefix : forall i, (i < 0)%nat ->
            transient (geolocator (calls w + i)%nat
                         (py_or (value (ws_cell ws row col_address)) (VStr ""))) = true)
    by lia.
  rewrite (lookup_propagates _ _ _ O e); [|lia|done| |done].
  - unfold after_call. simpl. by rewrite Nat.add_0_r.
  - by rewrite Nat.add_0_r.
Qed.

Lemma fill_and_trim_stops_at_an_uncaught_exception_witness :
  fst (fill_and_trim (fun _ _ => GeoRaises GeocoderServiceError) (fun _ => 0%Q) 2 1
                     (sample_sheet, w0))
  = Raised GeocoderServiceError.
Proof.
  rewrite (fill_and_trim_stops_at_an_uncaught_exception
             (fun _ _ => GeoRaises GeocoderServiceError) (fun _ => 0%Q) 2 1
             sample_sheet w0 2 GeocoderServiceError);
    [reflexivity|simpl; lia|intros r Hr; lia|reflexivity|reflexivity|reflexivity].
Defined.

Lemma total_bound (b : Q) (l : list Q) :
  Forall (fun d => d <= b)%Q l ->
  (fold_right Qplus 0 l <= b * inject_Z (Z.of_nat (length l)))%Q.
Proof.
  induction 1 as [|d l Hd Hl IH]; cbn [fold_right length].
  - change (inject_Z (Z.of_nat 0)) with 0%Q. lra.
  - rewrite Nat2Z.inj_succ. unfold Z.succ. rewrite inject_Z_plus.
    change (inject_Z 1) with 1%Q. lra.
Qed.

(** X18: a lookup sleeps at most 10 seconds for each attempt allowed in
    [check_url] and at most 20 in [lookup_postcode]; with the three
    attempts the scripts use, [lookup_postcode] sleeps 14 seconds at most. *)
Theorem time_slept_by_a_lookup_is_bounded
    session geolocator random url address max_retries w :
  (forall n, (0 <= random n <= 1)%Q) ->
  0 <= max_retries ->
  (time_slept (emitted_by (check_url session random url max_retries) w)
   <= 10 * inject_Z max_retries)%Q
  /\ (time_slept (emitted_by (lookup_postcode geolocator address max_retries) w)
      <= 20 * inject_Z max_retries)%Q
  /\ (time_slept (emitted_by (lookup_postcode geolocator address 3) w) <= 14)%Q.
Proof.
  intros Hr Hmax. unfold time_slept. split; [|split].
  - assert (Hb : forall k c d, (k <= Z.to_nat max_retries)%nat ->
              (fold_right Qplus 0 (sleeps_of (retries_trace session random url k c d))
               <= 10 * inject_Z max_retries)%Q).
    { intros k c d Hk.
      eapply Qle_trans.
      - apply (total_bound 10). eapply Forall_impl; [by apply sleeps_in_retries_bounds|].
        simpl. by intros q [_ ?].
      - rewrite sleeps_in_retries. apply Qmult_le_l; [done|]. rewrite <- Zle_Qle. lia. }
    destruct (first_non_retryable session url (Z.to_nat max_retries) (calls w))
      as [H|(k & Hk & H & [(r & E & F)|(e & E & F)])].
    + rewrite check_url_emits_retries by done. by apply Hb.
    + rewrite (check_url_emits_accept _ _ _ _ k r) by done.
      rewrite sleeps_of_app. simpl. rewrite app_nil_r. apply Hb. lia.
    + rewrite (check_url_emits_interrupt _ _ _ _ k e) by done.
      rewrite sleeps_of_app. simpl. rewrite app_nil_r. apply Hb. lia.
  - destruct (lookup_shape geolocator address max_retries w) as (k & t & Hk & -> & _ & ->).
    eapply Qle_trans; [apply (total_bound 20), backoffs_capped|].
    rewrite length_map, range_from_length. apply Qmult_le_l; [done|].
    rewrite <- Zle_Qle. lia.
  - destruct (lookup_shape geolocator address 3 w) as (k & t & Hk & -> & _ & ->).
    destruct k as [|[|[|[|k]]]]; [done|done|done|done|simpl in Hk; lia].
Qed.

Lemma time_slept_by_a_lookup_is_bounded_witness :
  (time_slept (emitted_by (lookup_postcode (fun _ _ => GeoRaises GeocoderTimedOut)
                                           (VStr "456 Elm St") 3) w0) <= 14)%Q.
Proof.
  apply (time_slept_by_a_lookup_is_bounded
           flaky_session (fun _ _ => GeoRaises GeocoderTimedOut) (fun _ => 1 # 2)%Q
           "http://example.com" (VStr "456 Elm St") 3 w0).
  - intros n. split; discriminate.
  - lia.
Defined.

(** X19: with the columns the script finds in the first row, the pass over
    the rows never touches the address column: the two columns are
    different, and only zip cells are written. *)
Theorem fill_pass_leaves_the_address_column
    row1 geolocator random col_zip col_address ws w row :
  required_columns (map_headers row1) = Some (col_zip, col_address) ->
  ws_cell (fst (snd (fill_blank_zips geolocator random col_zip col_address (ws, w))))
          row col_address
  = ws_cell ws row col_address.
Proof.
  intros Hcols%required_columns_distinct.
  unfold fill_blank_zips. simpl.
  destruct (for_each_effect geolocator random col_zip col_address
              (range 2 (max_row ws + 1)) (ws, w)) as (t & _ & Hf & _ & _).
  simpl in Hf.
  match goal with |- ?a = ?b => destruct (decide (a = b)) as [|Ne]; [done|] end.
  destruct (Hf _ _ Ne) as (E & _). congruence.
Qed.

Lemma fill_pass_leaves_the_address_column_witness :
  ws_cell (fst (snd (fill_blank_zips flaky_geocoder (fun _ => 0%Q) 2 1 (sample_sheet, w0))))
          2 1
  = Cell (VStr "123 Main St") no_fill.
Proof.
  apply (fill_pass_leaves_the_address_column
           [VStr "full_address"; VStr "zip"] flaky_geocoder (fun _ => 0%Q) 2 1
           sample_sheet w0 2).
  reflexivity.
Defined.
